(** * Medal aggregation: country identity resolution and cross-source merge

    A shallow embedding of [scrape_data.py] (the parsers' row loops,
    [normalize_country_names], [aggregate_data]) and of the loop of
    [add_alpha2_codes.py], with the properties of the specification
    stated and proved over it.

    Modelling conventions.
    - A Python [str] is a sequence of Unicode code points, [str]; [len]
      counts code points, [s[:n]] takes code points, [==] and [in] compare
      code points.  A literal of this file stands for the code points its
      UTF-8 bytes encode.
    - [str.lower] and [str.upper] depend on the Unicode tables of the
      interpreter.  They are the two operations of the class [CaseMap];
      [PythonCase] states what the development uses of them: [lower] on
      text within U+0000..U+00FF, [upper] on ASCII text, and that [upper]
      never empties a string.
    - A Python [dict] is an association list in insertion order with
      pairwise distinct keys: [d[k] = v] replaces the value in place when
      [k] is present and appends otherwise.
    - Python integers are unbounded: [Z].
    - The warnings [normalize_country_names] prints are modelled by the
      list of printed lines it returns next to its value. *)

From Stdlib Require Import List NArith ZArith Lia Bool Arith Strings.Byte.
From Stdlib Require Import Sorting.Sorted Sorting.Permutation.
Import ListNotations.

(** ** Python strings *)

Module PyStr.

Inductive str : Set :=
| Empty
| Char (c : N) (s : str).

(** [len(s)] *)
Fixpoint length (s : str) : nat :=
  match s with
  | Empty => 0
  | Char _ s' => S (length s')
  end.

(** [s1 + s2] *)
Fixpoint append (s1 s2 : str) : str :=
  match s1 with
  | Empty => s2
  | Char c s1' => Char c (append s1' s2)
  end.

(** [s1 == s2] *)
Fixpoint eqb (s1 s2 : str) : bool :=
  match s1, s2 with
  | Empty, Empty => true
  | Char c1 s1', Char c2 s2' => N.eqb c1 c2 && eqb s1' s2'
  | _, _ => false
  end.

(** [s.startswith(p)] *)
Fixpoint prefix (p s : str) : bool :=
  match p with
  | Empty => true
  | Char c p' =>
      match s with
      | Empty => false
      | Char d s' => N.eqb c d && prefix p' s'
      end
  end.

(** [sub in s] on strings: substring containment *)
Fixpoint contains (sub s : str) : bool :=
  prefix sub s ||
  match s with
  | Empty => false
  | Char _ s' => contains sub s'
  end.

(** [s[:n]] *)
Fixpoint take (n : nat) (s : str) : str :=
  match n, s with
  | S n', Char c s' => Char c (take n' s')
  | _, _ => Empty
  end.

(** truth value of a string: [bool(s)] *)
Definition nonempty (s : str) : bool :=
  match s with Empty => false | Char _ _ => true end.

Fixpoint map_chars (f : N -> N) (s : str) : str :=
  match s with
  | Empty => Empty
  | Char c s' => Char (f c) (map_chars f s')
  end.

Fixpoint all_chars (p : N -> bool) (s : str) : bool :=
  match s with
  | Empty => true
  | Char c s' => p c && all_chars p s'
  end.

(** every code point is below U+0080, below U+0100 *)
Definition is_ascii : str -> bool := all_chars (fun c => (c <? 128)%N).
Definition is_latin1 : str -> bool := all_chars (fun c => (c <? 256)%N).

(** the lower-case mapping of Unicode on U+0000..U+00FF: A-Z and the
    letters of U+00C0..U+00DE (U+00D7 is the multiplication sign) move up
    by 32 *)
Definition latin1_lower (c : N) : N :=
  if ((65 <=? c) && (c <=? 90)
      || (192 <=? c) && (c <=? 222) && negb (c =? 215))%N
  then (c + 32)%N else c.

(** the upper-case mapping of Unicode on ASCII *)
Definition ascii_upper (c : N) : N :=
  if ((97 <=? c) && (c <=? 122))%N then (c - 32)%N else c.

(** reading a literal: the code points of a UTF-8 byte sequence *)
Fixpoint utf8_decode (fuel : nat) (bs : list N) : str :=
  match fuel with
  | O => Empty
  | S fuel' =>
      match bs with
      | [] => Empty
      | b0 :: r0 =>
          if (b0 <? 128)%N then Char b0 (utf8_decode fuel' r0) else
          match r0 with
          | [] => Char b0 Empty
          | b1 :: r1 =>
              if (b0 <? 224)%N
              then Char ((b0 - 192) * 64 + (b1 - 128))%N (utf8_decode fuel' r1)
              else
              match r1 with
              | [] => Char b0 Empty
              | b2 :: r2 =>
                  if (b0 <? 240)%N
                  then Char ((b0 - 224) * 4096 + (b1 - 128) * 64 + (b2 - 128))%N
                         (utf8_decode fuel' r2)
                  else
                  match r2 with
                  | [] => Char b0 Empty
                  | b3 :: r3 =>
                      Char ((b0 - 240) * 262144 + (b1 - 128) * 4096
                            + (b2 - 128) * 64 + (b3 - 128))%N
                        (utf8_decode fuel' r3)
                  end
              end
          end
      end
  end.

Definition utf8_encode_char (c : N) : list N :=
  if (c <? 128)%N then [c]
  else if (c <? 2048)%N then [192 + c / 64; 128 + c mod 64]%N
  else if (c <? 65536)%N
  then [224 + c / 4096; 128 + (c / 64) mod 64; 128 + c mod 64]%N
  else [240 + c / 262144; 128 + (c / 4096) mod 64;
        128 + (c / 64) mod 64; 128 + c mod 64]%N.

Fixpoint utf8_encode (s : str) : list N :=
  match s with
  | Empty => []
  | Char c s' => (utf8_encode_char c ++ utf8_encode s')%list
  end.

Definition of_bytes (bs : list byte) : str :=
  utf8_decode (List.length bs) (map (fun b => N.of_nat (Byte.to_nat b)) bs).

Definition to_bytes (s : str) : list byte :=
  map (fun b => match Byte.of_N b with Some x => x | None => x00 end)
      (utf8_encode s).

Definition eq_dec (s1 s2 : str) : {s1 = s2} + {s1 <> s2}.
Proof. decide equality. apply N.eq_dec. Defined.

End PyStr.

Import PyStr.

Declare Scope str_scope.
Delimit Scope str_scope with str.
Bind Scope str_scope with str.
String Notation str PyStr.of_bytes PyStr.to_bytes : str_scope.
Infix "++" := PyStr.append : str_scope.
Open Scope str_scope.

(** [str.lower] and [str.upper] *)
Class CaseMap := {
  lower : str -> str;
  upper : str -> str
}.

(** what is used of the two: on text within U+0000..U+00FF [lower] is
    [latin1_lower] character by character, on ASCII text [upper] is
    [ascii_upper] character by character, and [upper] of a string that is
    not empty is not empty *)
Class PythonCase (cm : CaseMap) : Prop := {
  lower_latin1 : forall s, is_latin1 s = true -> lower s = map_chars latin1_lower s;
  upper_ascii : forall s, is_ascii s = true -> upper s = map_chars ascii_upper s;
  upper_nonempty : forall s, nonempty s = true -> nonempty (upper s) = true
}.

(** the case mapping that is the two tables everywhere: it obeys
    [PythonCase], and examples are run with it *)
Definition ref_case : CaseMap :=
  {| lower := map_chars latin1_lower; upper := map_chars ascii_upper |}.

(** a statement about every case mapping that obeys [PythonCase] *)
Definition every_python_case (P : CaseMap -> Prop) : Prop :=
  forall cm : CaseMap, PythonCase cm -> P cm.

(** ** Python dictionaries with string keys *)

Module PyDict.
Section Dict.
Context {V : Type}.

Definition dict := list (str * V).

(** [d.get(k)] *)
Fixpoint get (d : dict) (k : str) : option V :=
  match d with
  | [] => None
  | (k', v) :: d' => if PyStr.eqb k k' then Some v else get d' k
  end.

(** [d[k] = v] *)
Fixpoint set (d : dict) (k : str) (v : V) : dict :=
  match d with
  | [] => [(k, v)]
  | (k', v') :: d' =>
      if PyStr.eqb k k' then (k', v) :: d' else (k', v') :: set d' k v
  end.

(** [k in d] *)
Definition mem (d : dict) (k : str) : bool :=
  match get d k with Some _ => true | None => false end.

(** [d.keys()] *)
Definition keys (d : dict) : list str := map fst d.

(** a dictionary display [{k1: v1, k2: v2, ...}], evaluated left to right *)
Definition literal (kvs : list (str * V)) : dict :=
  fold_left (fun d kv => set d (fst kv) (snd kv)) kvs [].

End Dict.
Arguments dict V : clear implicits.
End PyDict.

Import PyDict.

(** ** Static tables of [scrape_data.py] *)

(** [HISTORICAL_COUNTRIES] is a Python set; the model lists its display.
    Only membership and "some member matches" are observed by the code
    paths modelled here, so the iteration order is immaterial. *)
Definition HISTORICAL_COUNTRIES : list str :=
  [ "Soviet Union";
    "Yugoslavia";
    "East Germany";
    "Czechoslovakia";
    "German Democratic Republic";
    "Socialist Federal Republic of Yugoslavia";
    "Commonwealth of Independent States";
    "Serbia and Montenegro";
    "CIS";
    "Union of Soviet Socialist Republics";
    "Czechoslovakia" ].

(** [name in HISTORICAL_COUNTRIES] *)
Definition in_historical (name : str) : bool :=
  existsb (PyStr.eqb name) HISTORICAL_COUNTRIES.

(** [COUNTRY_CODE_MAP], entry by entry as the source file has it (one key
    holds the two characters U+00C3 U+00BC beyond ASCII) *)
Definition COUNTRY_CODE_MAP : dict str :=
  literal
  [ ("United States", "USA"); ("United States of America", "USA");
    ("China", "CHN"); ("People's Republic of China", "CHN");
    ("Russia", "RUS"); ("South Korea", "KOR");
    ("Republic of Korea", "KOR"); ("Hungary", "HUN");
    ("Romania", "ROU"); ("Vietnam", "VNM");
    ("United Kingdom", "GBR"); ("Bulgaria", "BGR");
    ("Germany", "DEU"); ("Iran", "IRN");
    ("Islamic Republic of Iran", "IRN"); ("Japan", "JPN");
    ("Taiwan", "TWN"); ("Ukraine", "UKR");
    ("Canada", "CAN"); ("Poland", "POL");
    ("Thailand", "THA"); ("Australia", "AUS");
    ("Singapore", "SGP"); ("France", "FRA");
    ("Israel", "ISR"); ("Turkey", "TUR");
    ("TÃ¼rkiye", "TUR"); ("Italy", "ITA");
    ("India", "IND"); ("North Korea", "PRK");
    ("Democratic People's Republic of Korea", "PRK"); ("Belarus", "BLR");
    ("Kazakhstan", "KAZ"); ("Hong Kong", "HKG");
    ("Serbia", "SRB"); ("Brazil", "BRA");
    ("Austria", "AUT"); ("Netherlands", "NLD");
    ("Mongolia", "MNG"); ("Peru", "PER");
    ("Slovakia", "SVK"); ("Czech Republic", "CZE");
    ("Sweden", "SWE"); ("Mexico", "MEX");
    ("Croatia", "HRV"); ("Indonesia", "IDN");
    ("Argentina", "ARG"); ("Georgia", "GEO");
    ("Malaysia", "MYS"); ("Greece", "GRC");
    ("Moldova", "MDA"); ("Philippines", "PHL");
    ("Switzerland", "CHE"); ("Bosnia and Herzegovina", "BIH");
    ("Norway", "NOR"); ("North Macedonia", "MKD");
    ("Portugal", "PRT"); ("Belgium", "BEL");
    ("New Zealand", "NZL"); ("Lithuania", "LTU");
    ("Macau", "MAC"); ("Luxembourg", "LUX");
    ("Armenia", "ARM"); ("Colombia", "COL");
    ("South Africa", "ZAF"); ("Finland", "FIN");
    ("Latvia", "LVA"); ("Slovenia", "SVN");
    ("Bangladesh", "BGD"); ("Cuba", "CUB");
    ("Denmark", "DNK"); ("Tunisia", "TUN");
    ("Kyrgyzstan", "KGZ"); ("Algeria", "DZA");
    ("Uzbekistan", "UZB"); ("Saudi Arabia", "SAU");
    ("Estonia", "EST"); ("Spain", "ESP");
    ("Azerbaijan", "AZE"); ("Turkmenistan", "TKM");
    ("Cyprus", "CYP"); ("Tajikistan", "TJK");
    ("Syria", "SYR"); ("Morocco", "MAR");
    ("Ireland", "IRL"); ("Chile", "CHL");
    ("Montenegro", "MNE"); ("Albania", "ALB");
    ("Pakistan", "PAK"); ("Trinidad and Tobago", "TTO");
    ("Venezuela", "VEN"); ("Costa Rica", "CRI");
    ("Iceland", "ISL"); ("Paraguay", "PRY");
    ("El Salvador", "SLV"); ("Liechtenstein", "LIE");
    ("Ivory Coast", "CIV"); ("Sri Lanka", "LKA");
    ("Ecuador", "ECU"); ("Afghanistan", "AFG");
    ("Albania", "ALB"); ("Bahrain", "BHR");
    ("Benin", "BEN"); ("Bolivia", "BOL");
    ("Botswana", "BWA"); ("Brunei", "BRN");
    ("Burkina Faso", "BFA"); ("Cambodia", "KHM");
    ("Egypt", "EGY"); ("Gambia", "GMB");
    ("Ghana", "GHA"); ("Guatemala", "GTM");
    ("Honduras", "HND"); ("Iraq", "IRQ");
    ("Kenya", "LKA"); ("Kosovo", "KSV");
    ("Kuwait", "KWT"); ("Madagascar", "MDG");
    ("Mauritania", "MRT"); ("Mozambique", "MOZ");
    ("Myanmar", "MMR"); ("Nepal", "NPL");
    ("Nicaragua", "NIC"); ("Nigeria", "NGA");
    ("Panama", "PAN"); ("Puerto Rico", "PRI");
    ("Qatar", "QAT"); ("Senegal", "SEN");
    ("Suriname", "SUR"); ("Tanzania", "TZA");
    ("Uganda", "UGA"); ("United Arab Emirates", "ARE");
    ("Uruguay", "URY"); ("Zimbabwe", "ZWE");
    ("Jordan", "JOR"); ("Malta", "MLT");
    ("Palestine", "PSE"); ("Dominican Republic", "DOM");
    ("Gabon", "GAB"); ("Libya", "LBY");
    ("Mauritius", "MUS"); ("Rwanda", "RWA") ].

(** ** Data model *)

Record MedalTally := mkTally {
  gold : Z;
  silver : Z;
  bronze : Z;
  total : Z
}.

Definition zero_tally : MedalTally := mkTally 0 0 0 0.

(** the value stored per code by the normalizer: [{"name": .., "medals": ..}] *)
Record Info := mkInfo {
  info_name : str;
  info_medals : MedalTally
}.

Section Code.
Context {cm : CaseMap}.

(** ** Name resolution (the first half of the body of the loop of
    [normalize_country_names]) *)

(** truth value of [code], which is [None] or a string *)
Definition truthy (code : option str) : bool :=
  match code with
  | Some s => nonempty s
  | None => false
  end.

(** the test of the partial-match loop *)
Definition partial_test (country_name : str) (entry : str * str) : bool :=
  contains (lower (fst entry)) (lower country_name)
  || contains (lower country_name) (lower (fst entry)).

(** the partial-match loop: [code] after [for ... : if ...: code = iso_code; break] *)
Definition partial_match (country_name : str) (code : option str)
  : option str :=
  match find (partial_test country_name) COUNTRY_CODE_MAP with
  | Some (_, iso_code) => Some iso_code
  | None => code
  end.

Definition warning (country_name : str) : str :=
  "Warning: No ISO code found for '" ++ country_name ++ "'".

(** the code a raw label resolves to, with the lines printed on the way *)
Definition resolve (country_name : str) : str * list str :=
  let code := get COUNTRY_CODE_MAP country_name in
  let code := if truthy code then code else partial_match country_name code in
  match code with
  | Some (Char c s) => (Char c s, [])
  | _ => (upper (take 3 country_name), [warning country_name])
  end.

Definition resolve_code (country_name : str) : str :=
  fst (resolve country_name).

(** ** The per-source parsers

    What BeautifulSoup hands to the row loops: a table is a list of rows,
    a row the list of its cells, a cell its stripped text and its links. *)

Record Link := mkLink {
  link_text : str;   (* link.get_text(strip=True) *)
  link_title : str   (* link.get("title", "") *)
}.

Record Cell := mkCell {
  cell_text : str;   (* cell.get_text(strip=True) *)
  cell_links : list Link
}.

Definition Row := list Cell.

Section Parsers.

(** Python's [int] on a string; [None] stands for [ValueError] *)
Variable int : str -> option Z.

(** [int(cells[i].get_text(strip=True))]; [None] stands for the
    [IndexError] or [ValueError] the loop body catches *)
Definition int_cell (cells : Row) (i : nat) : option Z :=
  match nth_error cells i with
  | Some c => int (cell_text c)
  | None => None
  end.

(** the [try] block: three cells from column [i] on, and their sum *)
Definition read_tally (cells : Row) (i : nat) : option MedalTally :=
  match int_cell cells i with
  | None => None
  | Some g =>
      match int_cell cells (i + 1) with
      | None => None
      | Some s =>
          match int_cell cells (i + 2) with
          | None => None
          | Some b => Some (mkTally g s b (g + s + b))
          end
      end
  end.

(** the loop over the links of the country cell in [parse_imo_data] *)
Definition imo_link_name (links : list Link) : str :=
  fold_left
    (fun country_name link =>
       let text := link_text link in
       let title := link_title link in
       if nonempty text && (1 <? length text)%nat
          && (PyStr.eqb text title || negb (nonempty title))
       then text else country_name)
    links "".

(** the scan of [HISTORICAL_COUNTRIES] against the cell text *)
Definition historical_in (text : str) : option str :=
  find (fun historical => contains (lower historical) (lower text))
       HISTORICAL_COUNTRIES.

(** body of the row loop of [parse_imo_data] *)
Definition imo_row (data : dict MedalTally) (cells : Row) : dict MedalTally :=
  if (List.length cells <? 6)%nat then data else
  match nth_error cells 1 with
  | None => data
  | Some country_cell =>
      let country_name :=
        match cell_links country_cell with
        | [] => cell_text country_cell
        | links => imo_link_name links
        end in
      if (length country_name <=? 2)%nat then data else
      let '(country_name, is_historical) :=
        match historical_in (cell_text country_cell) with
        | Some historical => (historical, true)
        | None => (country_name, false)
        end in
      if is_historical && in_historical country_name then data else
      match read_tally cells 2 with
      | Some t => set data country_name t
      | None => data
      end
  end.

(** the country name of [parse_ioi_data] and [parse_ipho_data]:
    the text of the first link of the cell, else the text of the cell *)
Definition first_link_name (country_cell : Cell) : str :=
  match cell_links country_cell with
  | country_link :: _ => link_text country_link
  | [] => cell_text country_cell
  end.

(** body of the row loops of [parse_ioi_data] ([col = 3]) and
    [parse_ipho_data] ([col = 4]) *)
Definition plain_row (col : nat) (data : dict MedalTally) (cells : Row)
  : dict MedalTally :=
  if (List.length cells <? 6)%nat then data else
  match nth_error cells 1 with
  | None => data
  | Some country_cell =>
      let country_name := first_link_name country_cell in
      if in_historical country_name then data else
      match read_tally cells col with
      | Some t => set data country_name t
      | None => data
      end
  end.

Definition ioi_row := plain_row 3.
Definition ipho_row := plain_row 4.

(** a parser: [None] is a page without table; the first row is the header *)
Definition parse_with (row_body : dict MedalTally -> Row -> dict MedalTally)
    (table : option (list Row)) : dict MedalTally :=
  match table with
  | None => []
  | Some rows => fold_left row_body (tl rows) []
  end.

Definition parse_imo_data := parse_with imo_row.
Definition parse_ioi_data := parse_with ioi_row.
Definition parse_ipho_data := parse_with ipho_row.

End Parsers.

(** ** The per-source normalizer *)

(** the second half of the loop body of [normalize_country_names]: the
    state is the dictionary built so far and the lines printed so far *)
Definition normalize_step (st : dict Info * list str)
    (item : str * MedalTally) : dict Info * list str :=
  let '(normalized, printed) := st in
  let '(country_name, medals) := item in
  let '(code, lines) := resolve country_name in
  let printed := (printed ++ lines)%list in
  match get normalized code with
  | Some existing =>
      if (length (info_name existing) <=? length country_name)%nat
      then (normalized, printed)
      else (set normalized code (mkInfo country_name medals), printed)
  | None => (set normalized code (mkInfo country_name medals), printed)
  end.

Definition normalize_run (data_dict : dict MedalTally) : dict Info * list str :=
  fold_left normalize_step data_dict ([], []).

(** the dictionary [normalize_country_names] returns *)
Definition normalize_country_names (data_dict : dict MedalTally) : dict Info :=
  fst (normalize_run data_dict).


(** ** The cross-source aggregator *)

Record Medals := mkMedals {
  IMO : MedalTally;
  IOI : MedalTally;
  IPhO : MedalTally;
  combined : MedalTally
}.

Record Country := mkCountry {
  code : str;
  name : option str;
  medals : Medals
}.

(** [x or y] on values that are [None] or strings *)
Definition py_or (x y : option str) : option str :=
  if truthy x then x else y.

(** [info.get("name")] and [info.get("medals", zero)] where [info] is
    [normalized.get(code, {})] *)
Definition get_name (info : option Info) : option str :=
  option_map info_name info.

Definition get_medals (info : option Info) : MedalTally :=
  match info with
  | Some i => info_medals i
  | None => zero_tally
  end.

(** body of the loop over [all_codes] *)
Definition country_of (imo_normalized ioi_normalized ipho_normalized : dict Info)
    (code : str) : Country :=
  let imo_info := get imo_normalized code in
  let ioi_info := get ioi_normalized code in
  let ipho_info := get ipho_normalized code in
  let country_name :=
    py_or (py_or (get_name imo_info) (get_name ioi_info)) (get_name ipho_info) in
  let imo_medals := get_medals imo_info in
  let ioi_medals := get_medals ioi_info in
  let ipho_medals := get_medals ipho_info in
  let combined_total := (total imo_medals + total ioi_medals + total ipho_medals)%Z in
  let combined_gold := (gold imo_medals + gold ioi_medals + gold ipho_medals)%Z in
  let combined_silver :=
    (silver imo_medals + silver ioi_medals + silver ipho_medals)%Z in
  let combined_bronze :=
    (bronze imo_medals + bronze ioi_medals + bronze ipho_medals)%Z in
  mkCountry code country_name
    (mkMedals imo_medals ioi_medals ipho_medals
       (mkTally combined_gold combined_silver combined_bronze combined_total)).

(** the sort key: [x["medals"]["combined"]["total"]] *)
Definition sort_key (x : Country) : Z := total (combined (medals x)).

(** [list.sort(key=sort_key, reverse=True)]: the stable descending sort.
    Stability fixes the result, so insertion stands for Python's merge
    sort: an element goes in front of the first one whose key is not
    greater. *)
Fixpoint insert_desc (x : Country) (l : list Country) : list Country :=
  match l with
  | [] => [x]
  | y :: l' =>
      if (sort_key y <=? sort_key x)%Z then x :: y :: l'
      else y :: insert_desc x l'
  end.

Definition sort_desc (l : list Country) : list Country :=
  fold_right insert_desc [] l.

Section Aggregator.

(** The order in which Python iterates over the set built from the
    given elements.  The language leaves it open, so it is a parameter;
    [set_iteration] is all the code may rely on. *)
Variable iterate : list str -> list str.

Definition all_codes (imo_normalized ioi_normalized ipho_normalized : dict Info)
  : list str :=
  iterate (keys imo_normalized ++ keys ioi_normalized ++ keys ipho_normalized).

Definition aggregate_data (imo_data ioi_data ipho_data : dict MedalTally)
  : list Country :=
  let imo_normalized := normalize_country_names imo_data in
  let ioi_normalized := normalize_country_names ioi_data in
  let ipho_normalized := normalize_country_names ipho_data in
  let result :=
    map (country_of imo_normalized ioi_normalized ipho_normalized)
        (all_codes imo_normalized ioi_normalized ipho_normalized) in
  sort_desc result.

End Aggregator.

Definition set_iteration (iterate : list str -> list str) : Prop :=
  forall l, NoDup (iterate l) /\ forall x, In x (iterate l) <-> In x l.

(** one admissible order: last occurrences, left to right *)
Definition last_seen : list str -> list str := nodup PyStr.eq_dec.

(** a reader of plain decimal numerals, to run the parsers on examples *)
Definition digit (c : N) : option Z :=
  if ((48 <=? c) && (c <=? 57))%N then Some (Z.of_N (c - 48)) else None.

Fixpoint digits (acc : Z) (s : str) : option Z :=
  match s with
  | Empty => Some acc
  | Char c s' =>
      match digit c with
      | Some d => digits (10 * acc + d) s'
      | None => None
      end
  end.

Definition decimal (s : str) : option Z :=
  match s with
  | Empty => None
  | _ => digits 0 s
  end.

Definition text_cell (s : str) : Cell := mkCell s [].
Definition text_row (l : list str) : Row := map text_cell l.

(** ** The alpha-2 post-process ([add_alpha2_codes.py])

    The document is what [json.load] returns.  The scraper writes
    integers only, so JSON numbers are integers here. *)

#[warnings="-register-all"]
Inductive json :=
| JNull
| JBool (b : bool)
| JInt (n : Z)
| JStr (s : str)
| JList (items : list json)
| JDict (fields : list (str * json)).

Definition ALPHA3_TO_ALPHA2 : dict str :=
  literal
  [ ("AFG", "AF"); ("ALB", "AL"); ("ARE", "AE"); ("ARG", "AR"); ("ARM", "AM"); ("AUS", "AU");
    ("AUT", "AT"); ("AZE", "AZ"); ("BEL", "BE"); ("BEN", "BJ"); ("BFA", "BF"); ("BGD", "BD");
    ("BGR", "BG"); ("BHR", "BH"); ("BIH", "BA"); ("BLR", "BY"); ("BOL", "BO"); ("BRA", "BR");
    ("BRN", "BH"); ("BWA", "BW"); ("CAN", "CA"); ("CHE", "CH"); ("CHL", "CL"); ("CHN", "CN");
    ("CIV", "CI"); ("COL", "CO"); ("CRI", "CR"); ("CUB", "CU"); ("CYP", "CY"); ("CZE", "CZ");
    ("DEU", "DE"); ("DNK", "DK"); ("DOM", "DO"); ("DZA", "DZ"); ("ECU", "EC"); ("EGY", "EG");
    ("ESP", "ES"); ("EST", "EE"); ("FIN", "FI"); ("FRA", "FR"); ("GAB", "GA"); ("GBR", "GB");
    ("GEO", "GE"); ("GHA", "GH"); ("GMB", "GM"); ("GRC", "GR"); ("GTM", "GT"); ("HKG", "HK");
    ("HND", "HN"); ("HRV", "HR"); ("HUN", "HU"); ("IDN", "ID"); ("IND", "IN"); ("IRL", "IE");
    ("IRN", "IR"); ("IRQ", "IQ"); ("ISL", "IS"); ("ISR", "IL"); ("ITA", "IT"); ("JOR", "JO");
    ("JPN", "JP"); ("KAZ", "KZ"); ("KGZ", "KG"); ("KHM", "KH"); ("KOR", "KR"); ("KSV", "XK");
    ("KWT", "KW"); ("LBY", "LY"); ("LIE", "LI"); ("LKA", "LK"); ("LTU", "LT"); ("LUX", "LU");
    ("LVA", "LV"); ("MAC", "MO"); ("MAR", "MA"); ("MDA", "MD"); ("MDG", "MG"); ("MEX", "MX");
    ("MKD", "MK"); ("MLT", "MT"); ("MMR", "MM"); ("MNE", "ME"); ("MNG", "MN"); ("MOZ", "MZ");
    ("MRT", "MR"); ("MUS", "MU"); ("MYS", "MY"); ("NGA", "NG"); ("NIC", "NI"); ("NLD", "NL");
    ("NOR", "NO"); ("NPL", "NP"); ("NZL", "NZ"); ("PAK", "PK"); ("PAN", "PA"); ("PER", "PE");
    ("PHL", "PH"); ("POL", "PL"); ("PRI", "PR"); ("PRK", "KP"); ("PRT", "PT"); ("PRY", "PY");
    ("PSE", "PS"); ("QAT", "QA"); ("ROU", "RO"); ("RUS", "RU"); ("RWA", "RW"); ("SAU", "SA");
    ("SEN", "SN"); ("SGP", "SG"); ("SLV", "SV"); ("SRB", "RS"); ("SUR", "SR"); ("SVK", "SK");
    ("SVN", "SI"); ("SWE", "SE"); ("SYR", "SY"); ("THA", "TH"); ("TJK", "TJ"); ("TKM", "TM");
    ("TTO", "TT"); ("TUN", "TN"); ("TUR", "TR"); ("TWN", "TW"); ("TZA", "TZ"); ("UGA", "UG");
    ("UKR", "UA"); ("URY", "UY"); ("USA", "US"); ("UZB", "UZ"); ("VEN", "VE"); ("VNM", "VN");
    ("ZAF", "ZA"); ("ZWE", "ZW") ].

(** body of the loop of [main]; [None] stands for a raised exception:
    [country.get] on a value that is no dictionary, or an unhashable
    [code] in the membership test *)
Definition add_alpha2 (country : json) : option json :=
  match country with
  | JDict fields =>
      match get fields "code" with
      | Some (JStr code) =>
          match get ALPHA3_TO_ALPHA2 code with
          | Some alpha2 => Some (JDict (set fields "alpha2" (JStr alpha2)))
          | None => Some country
          end
      | Some (JList _) | Some (JDict _) => None
      | _ => Some country
      end
  | _ => None
  end.

(** the loop of [main] over a list of countries, which it updates in place *)
Fixpoint add_alpha2_all (countries : list json) : option (list json) :=
  match countries with
  | [] => Some []
  | country :: rest =>
      match add_alpha2 country with
      | None => None
      | Some country' =>
          match add_alpha2_all rest with
          | None => None
          | Some rest' => Some (country' :: rest')
          end
      end
  end.

(** [main] from the document [json.load] returns to the document it hands
    to [json.dump]; [None] when an exception ends the run before that
    call, so before the file is touched.  An empty string or dictionary
    under ["countries"] gives an empty loop.  The call of [json.dump]
    itself is not part of the model. *)
Definition add_alpha2_main (data : json) : option json :=
  match data with
  | JDict top =>
      match get top "countries" with
      | Some (JList countries) =>
          match add_alpha2_all countries with
          | Some countries' => Some (JDict (set top "countries" (JList countries')))
          | None => None
          end
      | Some (JStr Empty) => Some data
      | Some (JDict []) => Some data
      | _ => None
      end
  | _ => None
  end.

(** [country.get(k)] and [data["countries"]] as total readers *)
Definition field (country : json) (k : str) : option json :=
  match country with
  | JDict fields => get fields k
  | _ => None
  end.

Definition countries_of (data : json) : list json :=
  match field data "countries" with
  | Some (JList countries) => countries
  | _ => []
  end.

(** the alpha-2 code the table has for a country, if any *)
Definition alpha2_for (country : json) : option str :=
  match field country "code" with
  | Some (JStr code) => get ALPHA3_TO_ALPHA2 code
  | _ => None
  end.

(** the document [scrape_data.main] dumps *)
Definition tally_json (t : MedalTally) : json :=
  JDict [("gold", JInt (gold t)); ("silver", JInt (silver t));
         ("bronze", JInt (bronze t)); ("total", JInt (total t))].

Definition country_json (c : Country) : json :=
  JDict [("code", JStr (code c));
         ("name", match name c with Some n => JStr n | None => JNull end);
         ("medals",
          JDict [("IMO", tally_json (IMO (medals c)));
                 ("IOI", tally_json (IOI (medals c)));
                 ("IPhO", tally_json (IPhO (medals c)));
                 ("combined", tally_json (combined (medals c)))])].

Definition document (aggregated : list Country) (generated : str) : json :=
  JDict [("countries", JList (map country_json aggregated));
         ("metadata",
          JDict [("imo_years", JStr "1959-2025");
                 ("ioi_years", JStr "1989-2025");
                 ("ipho_years", JStr "1967-2025");
                 ("generated", JStr generated)])].

(** the scenario of the specification, with a second country *)
Definition sample_imo : dict MedalTally :=
  [("France", mkTally 10 5 2 17); ("Peru", mkTally 1 0 0 1)].
Definition sample_ioi : dict MedalTally := [("France", mkTally 3 1 0 4)].
Definition sample_ipho : dict MedalTally := [].

Definition sample_france : Country :=
  mkCountry "FRA" (Some "France")
    (mkMedals (mkTally 10 5 2 17) (mkTally 3 1 0 4) zero_tally
       (mkTally 13 6 2 21)).

Definition sample_peru : Country :=
  mkCountry "PER" (Some "Peru")
    (mkMedals (mkTally 1 0 0 1) zero_tally zero_tally (mkTally 1 0 0 1)).

(** ** Predicates used to state the properties *)

Open Scope list_scope.

(** the invariant of a tally *)
Definition tally_ok (t : MedalTally) : Prop :=
  total t = (gold t + silver t + bronze t)%Z.

(** every tally stored in a dictionary satisfies the invariant *)
Definition tallies_ok (data : dict MedalTally) : Prop :=
  forall n t, In (n, t) data -> tally_ok t.

(** the order of the output: the later of two neighbours has no greater key *)
Definition desc (a b : Country) : Prop := (sort_key b <= sort_key a)%Z.

(** what the alpha-2 post-process may do to a country object: every key
    but ["alpha2"] keeps its value, ["medals"] among them, and ["alpha2"]
    takes the table's value exactly when the table has the country's code *)
Definition augmented (country country' : json) : Prop :=
  (forall k, k <> "alpha2" -> field country' k = field country k)
  /\ field country' "medals" = field country "medals"
  /\ field country' "alpha2"
     = match alpha2_for country with
       | Some alpha2 => Some (JStr alpha2)
       | None => field country "alpha2"
       end.

(** the text contains, case-insensitively, a name of the historical set *)
Definition names_historical (text : str) : bool :=
  existsb (fun historical => contains (lower historical) (lower text))
          HISTORICAL_COUNTRIES.

(** the country cell of a row, [cells[1]] *)
Definition country_cell (cells : Row) : Cell :=
  nth 1 cells (mkCell "" []).

(** a parser discards a row: with or without it, at any place below the
    header, the parser returns the same dictionary *)
Definition discards_row (parse : option (list Row) -> dict MedalTally)
    (cells : Row) : Prop :=
  forall header before after,
    parse (Some (header :: before ++ cells :: after))
    = parse (Some (header :: before ++ after)).

(** what [normalize_step] does to the entry of one code [c] *)
Definition pick (c : str) (acc : option Info) (item : str * MedalTally)
  : option Info :=
  if PyStr.eqb (resolve_code (fst item)) c then
    match acc with
    | Some existing =>
        if (length (info_name existing) <=? length (fst item))%nat then acc
        else Some (mkInfo (fst item) (snd item))
    | None => Some (mkInfo (fst item) (snd item))
    end
  else acc.

(** a raw label that neither the exact lookup nor the partial match resolves *)
Definition unmatched (country_name : str) : Prop :=
  get COUNTRY_CODE_MAP country_name = None
  /\ find (partial_test country_name) COUNTRY_CODE_MAP = None.

(** the label is resolved through the dictionary: it is a key of it, or
    the partial-match test holds of some entry *)
Definition matched (country_name : str) : bool :=
  mem COUNTRY_CODE_MAP country_name
  || existsb (partial_test country_name) COUNTRY_CODE_MAP.

(** the test of the link loop of [parse_imo_data]: the link text has more
    than one character, and the title is equal to it or empty *)
Definition link_qualifies (link : Link) : bool :=
  nonempty (link_text link) && (1 <? length (link_text link))%nat
  && (PyStr.eqb (link_text link) (link_title link)
      || negb (nonempty (link_title link))).

(** the sum of a list of integers *)
Definition Zsum (l : list Z) : Z := fold_right Z.add 0%Z l.


(** the fields of the combined tally are the sums over the three sources *)
Definition combined_ok (m : Medals) : Prop :=
  gold (combined m) = (gold (IMO m) + gold (IOI m) + gold (IPhO m))%Z
  /\ silver (combined m) = (silver (IMO m) + silver (IOI m) + silver (IPhO m))%Z
  /\ bronze (combined m) = (bronze (IMO m) + bronze (IOI m) + bronze (IPhO m))%Z
  /\ total (combined m) = (total (IMO m) + total (IOI m) + total (IPhO m))%Z.

End Code.

Open Scope list_scope.

(** * Properties *)

Section Facts.
Context {cm : CaseMap}.

(** ** String equality *)

Lemma str_eqb_refl s : PyStr.eqb s s = true.
Proof. induction s as [|c s IH]; simpl; auto. now rewrite N.eqb_refl. Qed.

Lemma str_eqb_eq s1 s2 : PyStr.eqb s1 s2 = true <-> s1 = s2.
Proof.
  split; [|intros ->; apply str_eqb_refl].
  revert s2. induction s1 as [|c1 s1 IH]; intros [|c2 s2]; simpl;
    try discriminate; auto.
  intros H. apply andb_prop in H. destruct H as [Hc Hs].
  apply N.eqb_eq in Hc. apply IH in Hs. congruence.
Qed.

Lemma str_eqb_neq s1 s2 : PyStr.eqb s1 s2 = false <-> s1 <> s2.
Proof.
  split.
  - intros H E. apply str_eqb_eq in E. congruence.
  - intros H. destruct (PyStr.eqb s1 s2) eqn:E; auto. apply str_eqb_eq in E. contradiction.
Qed.

Lemma str_eqb_spec s1 s2 : reflect (s1 = s2) (PyStr.eqb s1 s2).
Proof.
  destruct (PyStr.eqb s1 s2) eqn:E; constructor.
  - now apply str_eqb_eq.
  - now apply str_eqb_neq.
Qed.

(** ** Dictionaries *)

Section DictFacts.
Context {V : Type}.
Implicit Types (d : dict V) (k : str) (v : V).

Lemma get_set_same d k v : get (set d k v) k = Some v.
Proof.
  induction d as [|[k' v'] d IH]; simpl.
  - now rewrite str_eqb_refl.
  - destruct (PyStr.eqb k k') eqn:E; simpl; rewrite E; auto.
Qed.

Lemma get_set_other d k k' v : k <> k' -> get (set d k v) k' = get d k'.
Proof.
  intros Hne. induction d as [|[k0 v0] d IH]; simpl.
  - destruct (PyStr.eqb k' k) eqn:E; auto.
    apply str_eqb_eq in E. congruence.
  - destruct (PyStr.eqb k k0) eqn:E; simpl.
    + apply str_eqb_eq in E. subst k0.
      destruct (PyStr.eqb k' k) eqn:E'; auto.
      apply str_eqb_eq in E'. congruence.
    + now rewrite IH.
Qed.

Lemma set_set d k v v' : set (set d k v) k v' = set d k v'.
Proof.
  induction d as [|[k0 v0] d IH]; simpl.
  - now rewrite str_eqb_refl.
  - destruct (PyStr.eqb k k0) eqn:E; simpl; rewrite E; congruence.
Qed.

Lemma get_In d k v : get d k = Some v -> In (k, v) d.
Proof.
  induction d as [|[k0 v0] d IH]; simpl; [discriminate|].
  destruct (PyStr.eqb k k0) eqn:E.
  - apply str_eqb_eq in E. intros [= ->]. left. congruence.
  - auto.
Qed.

Lemma In_keys_get d k : In k (keys d) <-> exists v, get d k = Some v.
Proof.
  unfold keys. induction d as [|[k0 v0] d IH]; simpl.
  - split; [tauto | intros [v Hv]; discriminate].
  - destruct (PyStr.eqb k k0) eqn:E.
    + apply str_eqb_eq in E. split; eauto.
    + apply str_eqb_neq in E. rewrite IH. split; [intros [H|H]|]; auto; congruence.
Qed.

Lemma not_In_keys_get d k : ~ In k (keys d) -> get d k = None.
Proof.
  intros H. destruct (get d k) eqn:E; auto.
  exfalso. apply H, In_keys_get. eauto.
Qed.

Lemma In_set d k v x : In x (set d k v) -> x = (k, v) \/ In x d.
Proof.
  induction d as [|[k0 v0] d IH]; simpl.
  - intros [H|[]]; auto.
  - destruct (PyStr.eqb k k0) eqn:E; simpl.
    + apply str_eqb_eq in E. subst. intros [H|H]; auto.
    + intros [H|H]; auto. destruct (IH H); auto.
Qed.

End DictFacts.

(** ** Strings *)



Lemma contains_empty s : contains "" s = true.
Proof. destruct s; reflexivity. Qed.

Lemma is_ascii_latin1 s : is_ascii s = true -> is_latin1 s = true.
Proof.
  unfold is_ascii, is_latin1. induction s as [|c s IH]; simpl; auto.
  intros H. apply andb_prop in H. destruct H as [Hc Hs].
  rewrite (IH Hs), andb_true_r. apply N.ltb_lt in Hc. apply N.ltb_lt. lia.
Qed.

Lemma is_ascii_take n s : is_ascii s = true -> is_ascii (take n s) = true.
Proof.
  unfold is_ascii. revert s. induction n as [|n IH]; intros [|c s]; simpl; auto.
  intros H. apply andb_prop in H. destruct H as [Hc Hs].
  now rewrite Hc, (IH _ Hs).
Qed.

Lemma find_ext_in {A} (f g : A -> bool) l :
  (forall x, In x l -> f x = g x) -> find f l = find g l.
Proof.
  induction l as [|a l IH]; intros H; simpl; auto.
  rewrite (H a) by now left. destruct (g a); auto.
  apply IH. intros x Hx. apply H. now right.
Qed.

Lemma forallb_ext_in {A} (f g : A -> bool) l :
  (forall x, In x l -> f x = g x) -> forallb f l = forallb g l.
Proof.
  induction l as [|a l IH]; intros H; simpl; auto.
  rewrite (H a) by now left. rewrite IH; auto.
  intros x Hx. apply H. now right.
Qed.

(** ** The reference case mapping

    On text within the range of the laws the code behaves as it does with
    [ref_case], so it can be run there. *)

Lemma table_names_latin1 name c :
  In (name, c) COUNTRY_CODE_MAP -> is_latin1 name = true.
Proof.
  intros H.
  assert (F : forallb (fun kv : str * str => is_latin1 (fst kv)) COUNTRY_CODE_MAP
              = true) by (vm_compute; reflexivity).
  rewrite forallb_forall in F. exact (F _ H).
Qed.

Section Reference.
Context {laws : PythonCase cm}.

Lemma lower_ref s : is_latin1 s = true -> lower s = @lower ref_case s.
Proof. apply lower_latin1. Qed.

Lemma upper_ref s : is_ascii s = true -> upper s = @upper ref_case s.
Proof. apply upper_ascii. Qed.

Lemma partial_test_ref n entry :
  is_latin1 n = true -> In entry COUNTRY_CODE_MAP ->
  partial_test n entry = @partial_test ref_case n entry.
Proof.
  intros Hn Hin. destruct entry as [name c]. unfold partial_test. cbn [fst].
  now rewrite (lower_ref n Hn), (lower_ref name (table_names_latin1 _ _ Hin)).
Qed.

Lemma find_partial_ref n :
  is_latin1 n = true ->
  find (partial_test n) COUNTRY_CODE_MAP
  = find (@partial_test ref_case n) COUNTRY_CODE_MAP.
Proof.
  intros Hn. apply find_ext_in. intros x Hx. now apply partial_test_ref.
Qed.

Lemma resolve_ref n : is_ascii n = true -> resolve n = @resolve ref_case n.
Proof.
  intros Hn. unfold resolve, partial_match.
  rewrite (find_partial_ref n (is_ascii_latin1 _ Hn)).
  now rewrite (upper_ref (take 3 n) (is_ascii_take 3 n Hn)).
Qed.

Lemma normalize_step_ref st item :
  is_ascii (fst item) = true ->
  normalize_step st item = @normalize_step ref_case st item.
Proof.
  intros H. destruct st as [normalized printed], item as [n m].
  unfold normalize_step. now rewrite (resolve_ref n H).
Qed.

Lemma normalize_ref data :
  forallb (fun kv : str * MedalTally => is_ascii (fst kv)) data = true ->
  normalize_country_names data = @normalize_country_names ref_case data.
Proof.
  intros H. unfold normalize_country_names, normalize_run. f_equal.
  generalize (@nil (str * Info), @nil str).
  induction data as [|item data IH]; intros st; auto.
  cbn [forallb] in H. apply andb_prop in H. destruct H as [Hi Hd].
  cbn [fold_left]. rewrite (normalize_step_ref st item Hi). now apply IH.
Qed.

Lemma aggregate_data_ref iterate imo_data ioi_data ipho_data :
  forallb (fun kv : str * MedalTally => is_ascii (fst kv)) imo_data = true ->
  forallb (fun kv : str * MedalTally => is_ascii (fst kv)) ioi_data = true ->
  forallb (fun kv : str * MedalTally => is_ascii (fst kv)) ipho_data = true ->
  aggregate_data iterate imo_data ioi_data ipho_data
  = @aggregate_data ref_case iterate imo_data ioi_data ipho_data.
Proof.
  intros H1 H2 H3. unfold aggregate_data.
  now rewrite (normalize_ref _ H1), (normalize_ref _ H2), (normalize_ref _ H3).
Qed.

Lemma names_historical_ref text :
  is_latin1 text = true ->
  names_historical text = @names_historical ref_case text.
Proof.
  intros H. unfold names_historical. rewrite (lower_ref text H).
  assert (F : forallb is_latin1 HISTORICAL_COUNTRIES = true)
    by (vm_compute; reflexivity).
  rewrite forallb_forall in F.
  generalize (@lower ref_case text). intros t.
  induction HISTORICAL_COUNTRIES as [|h l IH]; auto.
  cbn [existsb]. rewrite (lower_ref h) by (apply F; now left).
  rewrite IH; auto. intros x Hx. apply F. now right.
Qed.

End Reference.

(** ** Name resolution *)


Section ResolverLaws.
Context {laws : PythonCase cm}.

Lemma resolve_empty : resolve "" = ("USA", []).
Proof. rewrite resolve_ref by reflexivity. vm_compute. reflexivity. Qed.


Lemma resolve_unmatched country_name :
  unmatched country_name ->
  resolve country_name
  = (upper (take 3 country_name), [warning country_name]).
Proof.
  intros [Hget Hfind]. unfold resolve, partial_match.
  now rewrite Hget, Hfind.
Qed.


End ResolverLaws.

(** ** The normalizer *)

Lemma normalize_step_get st item c :
  get (fst (normalize_step st item)) c = pick c (get (fst st) c) item.
Proof.
  destruct st as [normalized printed], item as [country_name m].
  unfold normalize_step, pick, resolve_code. simpl fst. simpl snd.
  destruct (resolve country_name) as [code' lines]. simpl fst.
  destruct (PyStr.eqb code' c) eqn:E.
  - apply str_eqb_eq in E. subst code'.
    destruct (get normalized c) as [existing|] eqn:G.
    + destruct (length (info_name existing) <=? length country_name)%nat;
        simpl; [exact G | apply get_set_same].
    + simpl. apply get_set_same.
  - apply str_eqb_neq in E.
    destruct (get normalized code') as [existing|].
    + destruct (length (info_name existing) <=? length country_name)%nat;
        simpl; [reflexivity | now apply get_set_other].
    + simpl. now apply get_set_other.
Qed.

Lemma fold_normalize_get data st c :
  get (fst (fold_left normalize_step data st)) c
  = fold_left (pick c) data (get (fst st) c).
Proof.
  revert st. induction data as [|item data IH]; intros st; simpl; auto.
  now rewrite IH, normalize_step_get.
Qed.

(** the entry of a code is the fold of [pick] over the items *)
Lemma normalize_get data c :
  get (normalize_country_names data) c = fold_left (pick c) data None.
Proof. unfold normalize_country_names, normalize_run. apply fold_normalize_get. Qed.

Lemma pick_skip c l acc :
  (forall item, In item l -> resolve_code (fst item) <> c) ->
  fold_left (pick c) l acc = acc.
Proof.
  revert acc. induction l as [|item l IH]; intros acc H; simpl; auto.
  rewrite IH by (intros; apply H; now right).
  unfold pick. destruct (str_eqb_spec (resolve_code (fst item)) c) as [E|E]; auto.
  exfalso. apply (H item); simpl; auto.
Qed.

(** The entry kept for a code is the first of the shortest labels that
    resolve to it, with the tally of that label. *)
Lemma pick_first_shortest c data :
  match fold_left (pick c) data None with
  | None => forall item, In item data -> resolve_code (fst item) <> c
  | Some e =>
      resolve_code (info_name e) = c
      /\ exists before after,
           data = before ++ (info_name e, info_medals e) :: after
           /\ (forall item, In item before -> resolve_code (fst item) = c ->
                 (length (info_name e) < length (fst item))%nat)
           /\ (forall item, In item after -> resolve_code (fst item) = c ->
                 (length (info_name e) <= length (fst item))%nat)
  end.
Proof.
  induction data as [|[n m] data IH] using rev_ind.
  - simpl. tauto.
  - rewrite fold_left_app. simpl fold_left.
    destruct (fold_left (pick c) data None) as [e|]; unfold pick; simpl fst; simpl snd.
    + destruct IH as (He & before & after & Hd & Hb & Ha).
      destruct (str_eqb_spec (resolve_code n) c) as [E|E].
      * destruct (Nat.leb_spec (length (info_name e)) (length n)) as [L|L].
        -- split; auto. exists before, (after ++ [(n, m)])%list.
           repeat split; auto.
           ++ rewrite Hd, <- app_assoc. reflexivity.
           ++ intros item Hin Hc. apply in_app_or in Hin.
              destruct Hin as [Hin|[<-|[]]]; auto.
        -- simpl. split; auto. exists data, []. repeat split; auto.
           ++ intros item Hin Hc. rewrite Hd in Hin. apply in_app_or in Hin.
              destruct Hin as [Hin|[<-|Hin]].
              ** specialize (Hb _ Hin Hc). lia.
              ** exact L.
              ** specialize (Ha _ Hin Hc). lia.
           ++ intros item [].
      * split; auto. exists before, (after ++ [(n, m)])%list.
        repeat split; auto.
        -- rewrite Hd, <- app_assoc. reflexivity.
        -- intros item Hin Hc. apply in_app_or in Hin.
           destruct Hin as [Hin|[<-|[]]]; auto. simpl in Hc. contradiction.
    + destruct (str_eqb_spec (resolve_code n) c) as [E|E].
      * simpl. split; auto. exists data, []. repeat split; auto.
        -- intros item Hin Hc. exfalso. exact (IH _ Hin Hc).
        -- intros item [].
      * intros item Hin. apply in_app_or in Hin.
        destruct Hin as [Hin|[<-|[]]]; auto.
Qed.

Lemma normalize_entry_from_input data c e :
  get (normalize_country_names data) c = Some e ->
  In (info_name e, info_medals e) data /\ resolve_code (info_name e) = c.
Proof.
  rewrite normalize_get. intros H.
  pose proof (pick_first_shortest c data) as P. rewrite H in P.
  destruct P as (Hc & before & after & -> & _). split; auto.
  apply in_or_app. right. now left.
Qed.

Lemma normalize_two_labels
    (before between after : dict MedalTally)
    (label1 label2 : str) (tally1 tally2 : MedalTally) (c : str) :
  resolve_code label1 = c ->
  resolve_code label2 = c ->
  (forall item, In item (before ++ between ++ after) ->
     resolve_code (fst item) <> c) ->
  get (normalize_country_names
         (before ++ (label1, tally1) :: between ++ (label2, tally2) :: after)) c
  = Some (if (length label2 <? length label1)%nat
          then mkInfo label2 tally2
          else mkInfo label1 tally1).
Proof.
  intros H1 H2 Hother.
  rewrite normalize_get, fold_left_app. simpl fold_left.
  rewrite (pick_skip c before)
    by (intros; apply Hother; apply in_or_app; now left).
  rewrite fold_left_app. simpl fold_left.
  rewrite (pick_skip c between)
    by (intros; apply Hother; apply in_or_app; right; apply in_or_app; now left).
  rewrite (pick_skip c after)
    by (intros; apply Hother; apply in_or_app; right; apply in_or_app; now right).
  unfold pick. simpl fst. simpl snd.
  rewrite H1, H2, str_eqb_refl. simpl info_name.
  destruct (Nat.leb_spec (length label1) (length label2)) as [L|L];
    destruct (Nat.ltb_spec (length label2) (length label1)) as [L'|L'];
    auto; lia.
Qed.

(** C2: the entry the normalizer keeps for a code is one record of the
    input, name and tally together: the labels resolving to the code that
    come before it are strictly longer, those that come after are at least
    as long.  So of two labels that resolve to one code the strictly
    shorter gives the name, the earlier one on equal lengths, and the
    entry has the tally of that label alone; the other tally is dropped. *)
Theorem normalize_collision :
  (forall (data : dict MedalTally) (c : str) (e : Info),
     get (normalize_country_names data) c = Some e ->
     resolve_code (info_name e) = c
     /\ exists before after,
          data = before ++ (info_name e, info_medals e) :: after
          /\ (forall item, In item before -> resolve_code (fst item) = c ->
                (length (info_name e) < length (fst item))%nat)
          /\ (forall item, In item after -> resolve_code (fst item) = c ->
                (length (info_name e) <= length (fst item))%nat))
  /\ (forall (before between after : dict MedalTally)
        (label1 label2 : str) (tally1 tally2 : MedalTally) (c : str),
        resolve_code label1 = c ->
        resolve_code label2 = c ->
        (forall item, In item (before ++ between ++ after) ->
           resolve_code (fst item) <> c) ->
        get (normalize_country_names
               (before ++ (label1, tally1) :: between
                  ++ (label2, tally2) :: after)) c
        = Some (if (length label2 <? length label1)%nat
                then mkInfo label2 tally2
                else mkInfo label1 tally1)).
Proof.
  split.
  - intros data c e H. rewrite normalize_get in H.
    pose proof (pick_first_shortest c data) as P. now rewrite H in P.
  - exact normalize_two_labels.
Qed.

Section EmptyLabel.
Context {laws : PythonCase cm}.

Lemma pick_keeps_empty_label c m l :
  fold_left (pick c) l (Some (mkInfo "" m)) = Some (mkInfo "" m).
Proof.
  induction l as [|item l IH]; simpl; auto.
  unfold pick at 2. simpl.
  destruct (PyStr.eqb (resolve_code (fst item)) c); exact IH.
Qed.

Lemma empty_label_entered data m :
  NoDup (keys data) -> In ("", m) data ->
  get (normalize_country_names data) "USA" = Some (mkInfo "" m).
Proof.
  intros Hnd Hin. apply in_split in Hin. destruct Hin as (before & after & ->).
  rewrite normalize_get, fold_left_app. simpl fold_left.
  assert (Hstep : pick "USA" (fold_left (pick "USA") before None) ("", m)
                  = Some (mkInfo "" m)).
  { pose proof (pick_first_shortest "USA" before) as P.
    destruct (fold_left (pick "USA") before None) as [e|];
      unfold pick; simpl fst; simpl snd;
      replace (resolve_code "") with "USA"
        by (unfold resolve_code; now rewrite resolve_empty);
      rewrite str_eqb_refl; auto.
    destruct P as (_ & b & a & Hb & _).
    destruct (info_name e) as [|ch rest] eqn:En; [|reflexivity].
    exfalso. unfold keys in Hnd. rewrite map_app in Hnd. simpl in Hnd.
    apply NoDup_remove_2 in Hnd. apply Hnd, in_or_app. left.
    rewrite Hb, map_app. apply in_or_app. right. simpl. now left. }
  rewrite Hstep. apply pick_keeps_empty_label.
Qed.

(** C10: the empty label has no exact entry; the partial-match test holds
    of every dictionary entry for it, so the scan stops at the first one,
    ("United States", "USA"); the resolver returns "USA" and prints no
    warning, so the pseudo-code branch is not taken; and the record of the
    empty label is the entry of "USA" in the normalizer's result. *)
Theorem empty_label_resolves_to_first_entry :
  get COUNTRY_CODE_MAP "" = None
  /\ forallb (partial_test "") COUNTRY_CODE_MAP = true
  /\ hd_error COUNTRY_CODE_MAP = Some ("United States", "USA")
  /\ find (partial_test "") COUNTRY_CODE_MAP = Some ("United States", "USA")
  /\ resolve "" = ("USA", [])
  /\ forall (data : dict MedalTally) (m : MedalTally),
       NoDup (keys data) -> In ("", m) data ->
       get (normalize_country_names data) "USA" = Some (mkInfo "" m).
Proof.
  assert (T : forall entry, In entry COUNTRY_CODE_MAP ->
                partial_test "" entry = @partial_test ref_case "" entry)
    by (intros entry; now apply partial_test_ref).
  split; [vm_compute; reflexivity|].
  split; [rewrite (forallb_ext_in _ _ _ T); vm_compute; reflexivity|].
  split; [vm_compute; reflexivity|].
  split; [rewrite (find_ext_in _ _ _ T); vm_compute; reflexivity|].
  split; [exact resolve_empty|].
  exact empty_label_entered.
Qed.

End EmptyLabel.

(** ** The parsers *)

Section ParserFacts.
Variable int : str -> option Z.

Lemma read_tally_ok cells i t : read_tally int cells i = Some t -> tally_ok t.
Proof.
  unfold read_tally.
  destruct (int_cell int cells i); [|discriminate].
  destruct (int_cell int cells (i + 1)); [|discriminate].
  destruct (int_cell int cells (i + 2)); [|discriminate].
  intros [= <-]. reflexivity.
Qed.

Lemma set_tallies_ok data n t :
  tallies_ok data -> tally_ok t -> tallies_ok (set data n t).
Proof.
  intros Hd Ht n' t' Hin. apply In_set in Hin.
  destruct Hin as [[= -> ->]|Hin]; eauto.
Qed.

Lemma imo_row_ok data cells : tallies_ok data -> tallies_ok (imo_row int data cells).
Proof.
  intros Hd. unfold imo_row.
  destruct (List.length cells <? 6)%nat; auto.
  destruct (nth_error cells 1) as [cc|]; auto.
  destruct (length _ <=? 2)%nat; auto.
  destruct (historical_in (cell_text cc)) as [h|].
  - destruct (true && in_historical h); auto.
    destruct (read_tally int cells 2) eqn:R; auto.
    apply set_tallies_ok; eauto using read_tally_ok.
  - simpl. destruct (read_tally int cells 2) eqn:R; auto.
    apply set_tallies_ok; eauto using read_tally_ok.
Qed.

Lemma plain_row_ok col data cells :
  tallies_ok data -> tallies_ok (plain_row int col data cells).
Proof.
  intros Hd. unfold plain_row.
  destruct (List.length cells <? 6)%nat; auto.
  destruct (nth_error cells 1) as [cc|]; auto.
  destruct (in_historical _); auto.
  destruct (read_tally int cells col) eqn:R; auto.
  apply set_tallies_ok; eauto using read_tally_ok.
Qed.

Lemma parse_with_ok row_body table :
  (forall data cells, tallies_ok data -> tallies_ok (row_body data cells)) ->
  tallies_ok (parse_with row_body table).
Proof.
  intros Hstep. unfold parse_with. destruct table as [rows|].
  - assert (G : forall l data, tallies_ok data ->
                  tallies_ok (fold_left row_body l data)).
    { induction l as [|r l IH]; simpl; auto. }
    apply G. intros n t [].
  - intros n t [].
Qed.

Lemma parsers_tallies_ok table :
  tallies_ok (parse_imo_data int table)
  /\ tallies_ok (parse_ioi_data int table)
  /\ tallies_ok (parse_ipho_data int table).
Proof.
  repeat split; apply parse_with_ok; intros;
    first [now apply imo_row_ok | now apply plain_row_ok].
Qed.

(** a row the loop body skips is a row the parser discards *)
Lemma skipped_row_discarded row_body cells :
  (forall data, row_body data cells = data) ->
  discards_row (parse_with row_body) cells.
Proof.
  intros Hskip header before after. unfold parse_with. simpl tl.
  rewrite !fold_left_app. simpl. now rewrite Hskip.
Qed.

Lemma existsb_find {A} (f : A -> bool) l :
  existsb f l = true -> exists x, find f l = Some x.
Proof.
  induction l as [|a l IH]; simpl; [discriminate|].
  destruct (f a); simpl; eauto.
Qed.

Lemma historical_in_member text h :
  historical_in text = Some h -> in_historical h = true.
Proof.
  unfold historical_in, in_historical. intros H.
  apply find_some in H. destruct H as [Hin _].
  apply existsb_exists. exists h. split; auto. apply str_eqb_refl.
Qed.

Lemma country_cell_nth_error cells cc :
  nth_error cells 1 = Some cc -> country_cell cells = cc.
Proof. unfold country_cell. intros H. now apply nth_error_nth. Qed.

Lemma imo_row_skips_historical cells data :
  names_historical (cell_text (country_cell cells)) = true ->
  imo_row int data cells = data.
Proof.
  intros H. unfold imo_row.
  destruct (List.length cells <? 6)%nat; auto.
  destruct (nth_error cells 1) as [cc|] eqn:E; auto.
  rewrite (country_cell_nth_error _ _ E) in H.
  destruct (length _ <=? 2)%nat; auto.
  apply existsb_find in H. destruct H as [h Hh].
  fold (historical_in (cell_text cc)) in Hh. rewrite Hh.
  now rewrite (historical_in_member _ _ Hh).
Qed.

Lemma plain_row_skips_historical col cells data :
  in_historical (first_link_name (country_cell cells)) = true ->
  plain_row int col data cells = data.
Proof.
  intros H. unfold plain_row.
  destruct (List.length cells <? 6)%nat; auto.
  destruct (nth_error cells 1) as [cc|] eqn:E; auto.
  rewrite (country_cell_nth_error _ _ E) in H. now rewrite H.
Qed.

(** C4, as the code has it: [parse_imo_data] discards every row whose
    country cell text contains, in any letter case, a name of the
    historical set; [parse_ioi_data] and [parse_ipho_data] discard every
    row whose country name is, letter for letter, a member of the set.  A
    discarded row leaves the parser's result as it is without the row. *)
Theorem historical_rows_discarded (cells : Row) :
  (names_historical (cell_text (country_cell cells)) = true ->
   discards_row (parse_imo_data int) cells)
  /\ (in_historical (first_link_name (country_cell cells)) = true ->
      discards_row (parse_ioi_data int) cells
      /\ discards_row (parse_ipho_data int) cells).
Proof.
  split; [intros H | intros H; split]; apply skipped_row_discarded; intros data.
  - now apply imo_row_skips_historical.
  - now apply plain_row_skips_historical.
  - now apply plain_row_skips_historical.
Qed.

End ParserFacts.

(** ** The aggregator *)

Lemma insert_desc_perm x l : Permutation (insert_desc x l) (x :: l).
Proof.
  induction l as [|y l IH]; simpl; auto.
  destruct (sort_key y <=? sort_key x)%Z; auto.
  rewrite IH. apply perm_swap.
Qed.

Lemma sort_desc_perm l : Permutation (sort_desc l) l.
Proof.
  induction l as [|x l IH]; simpl; auto.
  rewrite insert_desc_perm. now constructor.
Qed.

Lemma insert_desc_sorted x l : Sorted desc l -> Sorted desc (insert_desc x l).
Proof.
  induction 1 as [|y l Hs IH Hhd]; simpl.
  - repeat constructor.
  - destruct (Z.leb_spec (sort_key y) (sort_key x)) as [L|L].
    + repeat constructor; auto.
    + constructor; auto.
      destruct l as [|z l]; simpl.
      * constructor. unfold desc. lia.
      * destruct (Z.leb_spec (sort_key z) (sort_key x)).
        -- constructor. unfold desc. lia.
        -- constructor. now inversion Hhd.
Qed.

Lemma sort_desc_sorted l : Sorted desc (sort_desc l).
Proof.
  induction l as [|x l IH]; simpl; [constructor|].
  now apply insert_desc_sorted.
Qed.

Lemma sorted_neighbours l :
  Sorted desc l ->
  forall i a b, nth_error l i = Some a -> nth_error l (S i) = Some b -> desc a b.
Proof.
  induction 1 as [|x l Hs IH Hhd]; intros i a b Ha Hb.
  - destruct i; discriminate.
  - destruct i as [|i].
    + simpl in Ha, Hb. injection Ha as <-.
      destruct l as [|y l]; [discriminate|]. simpl in Hb. injection Hb as <-.
      now inversion Hhd.
    + simpl in Ha. change (nth_error l (S i) = Some b) in Hb. eauto.
Qed.

Lemma code_country_of a b c k : code (country_of a b c k) = k.
Proof. reflexivity. Qed.

Lemma map_code_country_of a b c l : map code (map (country_of a b c) l) = l.
Proof.
  rewrite map_map. rewrite (map_ext _ (fun k => k)); [apply map_id | reflexivity].
Qed.

Lemma country_of_combined a b c k : combined_ok (medals (country_of a b c k)).
Proof. repeat split. Qed.

Section AggregatorFacts.
Variable iterate : list str -> list str.
Variables imo_data ioi_data ipho_data : dict MedalTally.

Local Abbreviation imo_normalized := (normalize_country_names imo_data).
Local Abbreviation ioi_normalized := (normalize_country_names ioi_data).
Local Abbreviation ipho_normalized := (normalize_country_names ipho_data).
Local Abbreviation output := (aggregate_data iterate imo_data ioi_data ipho_data).

Lemma output_perm :
  Permutation output
    (map (country_of imo_normalized ioi_normalized ipho_normalized)
         (all_codes iterate imo_normalized ioi_normalized ipho_normalized)).
Proof. apply sort_desc_perm. Qed.

Lemma output_entry e :
  In e output ->
  exists k,
    In k (all_codes iterate imo_normalized ioi_normalized ipho_normalized)
    /\ e = country_of imo_normalized ioi_normalized ipho_normalized k.
Proof.
  intros H. apply (Permutation_in _ output_perm) in H.
  apply in_map_iff in H. destruct H as (k & <- & Hk). eauto.
Qed.

Lemma output_codes_perm :
  Permutation (map code output)
    (all_codes iterate imo_normalized ioi_normalized ipho_normalized).
Proof.
  rewrite (Permutation_map code output_perm). now rewrite map_code_country_of.
Qed.

Lemma output_combined e : In e output -> combined_ok (medals e).
Proof.
  intros H. destruct (output_entry e H) as (k & _ & ->).
  apply country_of_combined.
Qed.

(** C5: the output is sorted by combined total, descending: of two
    neighbours the earlier has a combined total at least as large as the
    later. *)
Theorem output_sorted_descending (i : nat) (earlier later : Country) :
  nth_error output i = Some earlier ->
  nth_error output (S i) = Some later ->
  (total (combined (medals later)) <= total (combined (medals earlier)))%Z.
Proof.
  apply (sorted_neighbours output). apply sort_desc_sorted.
Qed.

Hypothesis iterate_set : set_iteration iterate.

Lemma all_codes_spec k :
  In k (all_codes iterate imo_normalized ioi_normalized ipho_normalized)
  <-> In k (keys imo_normalized) \/ In k (keys ioi_normalized)
      \/ In k (keys ipho_normalized).
Proof.
  unfold all_codes. rewrite (proj2 (iterate_set _)).
  rewrite !in_app_iff. tauto.
Qed.

Lemma output_codes_nodup : NoDup (map code output).
Proof.
  apply (Permutation_NoDup (Permutation_sym output_codes_perm)).
  apply iterate_set.
Qed.

Lemma output_codes_in k :
  In k (map code output)
  <-> In k (keys imo_normalized) \/ In k (keys ioi_normalized)
      \/ In k (keys ipho_normalized).
Proof.
  rewrite <- all_codes_spec. split; intros H.
  - exact (Permutation_in _ output_codes_perm H).
  - exact (Permutation_in _ (Permutation_sym output_codes_perm) H).
Qed.

(** C3: the codes of the output are pairwise distinct, and they are the
    codes of the three normalized dictionaries, every one of them. *)
Theorem output_codes_unique_and_complete :
  NoDup (map code output)
  /\ forall k,
       In k (map code output)
       <-> In k (keys (normalize_country_names imo_data))
           \/ In k (keys (normalize_country_names ioi_data))
           \/ In k (keys (normalize_country_names ipho_data)).
Proof. split; [exact output_codes_nodup | exact output_codes_in]. Qed.

End AggregatorFacts.

Lemma last_seen_set : set_iteration last_seen.
Proof.
  intros l. split.
  - apply NoDup_nodup.
  - intros x. apply nodup_In.
Qed.

Lemma normalized_tallies_ok data k :
  tallies_ok data ->
  tally_ok (get_medals (get (normalize_country_names data) k)).
Proof.
  intros Hd. destruct (get (normalize_country_names data) k) as [e|] eqn:G.
  - apply normalize_entry_from_input in G. destruct G as [Hin _].
    simpl. eapply Hd, Hin.
  - reflexivity.
Qed.

(** C1: in every entry of the aggregator's output the combined gold,
    silver, bronze and total are the sums of the three per-source fields
    of the same name; every tally a parser builds from a row has its total
    equal to gold + silver + bronze; so on the parsers' results all four
    tallies of an output entry satisfy the invariant. *)
Theorem combined_and_row_totals
    (iterate : list str -> list str) (int : str -> option Z) :
  (forall imo_data ioi_data ipho_data e,
     In e (aggregate_data iterate imo_data ioi_data ipho_data) ->
     combined_ok (medals e))
  /\ (forall table n t,
        In (n, t) (parse_imo_data int table)
        \/ In (n, t) (parse_ioi_data int table)
        \/ In (n, t) (parse_ipho_data int table) ->
        total t = (gold t + silver t + bronze t)%Z)
  /\ (forall imo_table ioi_table ipho_table e,
        In e (aggregate_data iterate (parse_imo_data int imo_table)
                (parse_ioi_data int ioi_table)
                (parse_ipho_data int ipho_table)) ->
        tally_ok (IMO (medals e)) /\ tally_ok (IOI (medals e))
        /\ tally_ok (IPhO (medals e)) /\ tally_ok (combined (medals e))).
Proof.
  split; [|split].
  - intros. eapply output_combined; eauto.
  - intros table n t H.
    destruct (parsers_tallies_ok int table) as (H1 & H2 & H3).
    destruct H as [H|[H|H]]; [eapply H1|eapply H2|eapply H3]; eauto.
  - intros t1 t2 t3 e H.
    pose proof (output_combined _ _ _ _ _ H) as (Cg & Cs & Cb & Ct).
    destruct (output_entry _ _ _ _ _ H) as (k & _ & E).
    assert (A : tally_ok (IMO (medals e))).
    { rewrite E. apply normalized_tallies_ok, parsers_tallies_ok. }
    assert (B : tally_ok (IOI (medals e))).
    { rewrite E. apply normalized_tallies_ok, parsers_tallies_ok. }
    assert (C : tally_ok (IPhO (medals e))).
    { rewrite E. apply normalized_tallies_ok, parsers_tallies_ok. }
    repeat split; auto. unfold tally_ok in *. lia.
Qed.

Lemma normalize_empty : normalize_country_names [] = [].
Proof. reflexivity. Qed.

(** C6: with an empty record sequence for one competition the aggregator
    still returns its list, and every entry has the zero tally for that
    competition; a code that some source resolved occurs exactly once in
    the output, and its entry has the zero tally for every source that
    did not resolve it. *)
Theorem absent_sources_contribute_zero
    (iterate : list str -> list str)
    (imo_data ioi_data ipho_data : dict MedalTally) :
  set_iteration iterate ->
  (forall e, In e (aggregate_data iterate [] ioi_data ipho_data) ->
     IMO (medals e) = zero_tally)
  /\ (forall e, In e (aggregate_data iterate imo_data [] ipho_data) ->
        IOI (medals e) = zero_tally)
  /\ (forall e, In e (aggregate_data iterate imo_data ioi_data []) ->
        IPhO (medals e) = zero_tally)
  /\ forall k,
       In k (keys (normalize_country_names imo_data))
       \/ In k (keys (normalize_country_names ioi_data))
       \/ In k (keys (normalize_country_names ipho_data)) ->
       count_occ PyStr.eq_dec
         (map code (aggregate_data iterate imo_data ioi_data ipho_data)) k = 1%nat
       /\ forall e,
            In e (aggregate_data iterate imo_data ioi_data ipho_data) ->
            code e = k ->
            (~ In k (keys (normalize_country_names imo_data)) ->
             IMO (medals e) = zero_tally)
            /\ (~ In k (keys (normalize_country_names ioi_data)) ->
                IOI (medals e) = zero_tally)
            /\ (~ In k (keys (normalize_country_names ipho_data)) ->
                IPhO (medals e) = zero_tally).
Proof.
  intros Hset. repeat split.
  - intros e H. destruct (output_entry _ _ _ _ _ H) as (k & _ & ->). reflexivity.
  - intros e H. destruct (output_entry _ _ _ _ _ H) as (k & _ & ->). reflexivity.
  - intros e H. destruct (output_entry _ _ _ _ _ H) as (k & _ & ->). reflexivity.
  - apply (proj1 (NoDup_count_occ' PyStr.eq_dec _)
                (output_codes_nodup iterate imo_data ioi_data ipho_data Hset)).
    now apply output_codes_in.
  - intros Habs. destruct (output_entry _ _ _ _ _ H0) as (k' & _ & ->).
    simpl in H1. subst k'.
    change (get_medals (get (normalize_country_names imo_data) k) = zero_tally).
    now rewrite (not_In_keys_get _ _ Habs).
  - intros Habs. destruct (output_entry _ _ _ _ _ H0) as (k' & _ & ->).
    simpl in H1. subst k'.
    change (get_medals (get (normalize_country_names ioi_data) k) = zero_tally).
    now rewrite (not_In_keys_get _ _ Habs).
  - intros Habs. destruct (output_entry _ _ _ _ _ H0) as (k' & _ & ->).
    simpl in H1. subst k'.
    change (get_medals (get (normalize_country_names ipho_data) k) = zero_tally).
    now rewrite (not_In_keys_get _ _ Habs).
Qed.

(** ** The alpha-2 post-process *)

Lemma add_alpha2_shape country country' :
  add_alpha2 country = Some country' ->
  exists fields,
    country = JDict fields
    /\ country' = match alpha2_for country with
                  | Some alpha2 => JDict (set fields "alpha2" (JStr alpha2))
                  | None => country
                  end.
Proof.
  destruct country as [| | | | |fields]; try discriminate.
  unfold add_alpha2, alpha2_for, field. intros H. exists fields. split; auto.
  destruct (get fields "code") as [[| | |c| |]|]; try discriminate;
    try (now injection H as <-).
  destruct (get ALPHA3_TO_ALPHA2 c); now injection H as <-.
Qed.

Lemma alpha2_for_set fields v :
  alpha2_for (JDict (set fields "alpha2" v)) = alpha2_for (JDict fields).
Proof.
  unfold alpha2_for, field. rewrite get_set_other; [reflexivity|discriminate].
Qed.

Lemma add_alpha2_total_on_string_code fields c :
  get fields "code" = Some (JStr c) ->
  exists country', add_alpha2 (JDict fields) = Some country'.
Proof.
  intros H. unfold add_alpha2. rewrite H.
  destruct (get ALPHA3_TO_ALPHA2 c); eauto.
Qed.

Lemma add_alpha2_idempotent country country' :
  add_alpha2 country = Some country' -> add_alpha2 country' = Some country'.
Proof.
  intros H. destruct (add_alpha2_shape _ _ H) as (fields & -> & ->).
  destruct (alpha2_for (JDict fields)) as [a|] eqn:A; [|exact H].
  assert (C : exists c, get fields "code" = Some (JStr c)
                        /\ get ALPHA3_TO_ALPHA2 c = Some a).
  { unfold alpha2_for, field in A.
    destruct (get fields "code") as [[| | |c| |]|]; try discriminate. eauto. }
  destruct C as (c & Hc & Ha).
  unfold add_alpha2. rewrite get_set_other by discriminate.
  rewrite Hc, Ha. now rewrite set_set.
Qed.

Lemma add_alpha2_augmented country country' :
  add_alpha2 country = Some country' -> augmented country country'.
Proof.
  intros H. destruct (add_alpha2_shape _ _ H) as (fields & -> & ->).
  unfold augmented.
  destruct (alpha2_for (JDict fields)) as [a|]; [|tauto].
  simpl field. repeat split.
  - intros k Hk. apply get_set_other. congruence.
  - apply get_set_other. discriminate.
  - apply get_set_same.
Qed.

Lemma add_alpha2_all_idempotent countries countries' :
  add_alpha2_all countries = Some countries' ->
  add_alpha2_all countries' = Some countries'
  /\ Forall2 augmented countries countries'.
Proof.
  revert countries'.
  induction countries as [|c cs IH]; intros cs'; simpl.
  - intros [= <-]. split; [reflexivity|constructor].
  - destruct (add_alpha2 c) as [c'|] eqn:Hc; [|discriminate].
    destruct (add_alpha2_all cs) as [rest|]; [|discriminate].
    intros [= <-]. destruct (IH rest eq_refl) as [Hi Hf].
    simpl. rewrite (add_alpha2_idempotent _ _ Hc), Hi. split; auto.
    constructor; auto. now apply add_alpha2_augmented.
Qed.

Lemma add_alpha2_all_country_json aggregated :
  exists countries',
    add_alpha2_all (map country_json aggregated) = Some countries'.
Proof.
  induction aggregated as [|c cs [rest IH]]; simpl map.
  - exists []. reflexivity.
  - destruct (add_alpha2_total_on_string_code
                [("code", JStr (code c));
                 ("name", match name c with Some n => JStr n | None => JNull end);
                 ("medals",
                  JDict [("IMO", tally_json (IMO (medals c)));
                         ("IOI", tally_json (IOI (medals c)));
                         ("IPhO", tally_json (IPhO (medals c)));
                         ("combined", tally_json (combined (medals c)))])]
                (code c) eq_refl) as [c' Hc'].
    exists (c' :: rest). unfold add_alpha2_all; fold add_alpha2_all.
    unfold country_json at 1. rewrite Hc', IH. reflexivity.
Qed.

(** C9: a second run of the post-process on the document of a first run
    returns that document unchanged; a run changes nothing of the document
    but the countries, and of a country nothing but the key "alpha2",
    which takes the table's value exactly when the table has the
    country's code, so "medals" keeps its value; and on every document
    the scraper writes the run ends without an exception. *)
Theorem alpha2_idempotent_and_conservative :
  (forall data data',
     add_alpha2_main data = Some data' ->
     add_alpha2_main data' = Some data'
     /\ (forall k, k <> "countries" -> field data' k = field data k)
     /\ Forall2 augmented (countries_of data) (countries_of data'))
  /\ (forall aggregated generated,
        exists data', add_alpha2_main (document aggregated generated) = Some data').
Proof.
  split.
  - intros data data' H.
    destruct data as [| | | | |top]; try discriminate.
    unfold add_alpha2_main in H.
    destruct (get top "countries") as [[| | |s|cs|d]|] eqn:G; try discriminate.
    + destruct s; [|discriminate]. injection H as <-.
      unfold add_alpha2_main, countries_of, field. rewrite G.
      repeat split; auto; constructor.
    + destruct (add_alpha2_all cs) as [cs'|] eqn:A; [|discriminate].
      injection H as <-.
      destruct (add_alpha2_all_idempotent _ _ A) as [Hi Hf].
      repeat split.
      * unfold add_alpha2_main. rewrite get_set_same, Hi. now rewrite set_set.
      * intros k Hk. simpl. apply get_set_other. congruence.
      * unfold countries_of, field. now rewrite get_set_same, G.
    + destruct d; [|discriminate]. injection H as <-.
      unfold add_alpha2_main, countries_of, field. rewrite G.
      repeat split; auto; constructor.
  - intros aggregated generated.
    destruct (add_alpha2_all_country_json aggregated) as [cs' H].
    unfold document, add_alpha2_main. simpl get. cbv beta iota.
    rewrite H. eauto.
Qed.

(** * Further properties of the code *)

(** ** The resolver and its tables *)

Lemma table_codes_nonempty name c :
  In (name, c) COUNTRY_CODE_MAP -> exists a s, c = Char a s.
Proof.
  intros H.
  assert (F : forallb (fun kv => nonempty (snd kv)) COUNTRY_CODE_MAP = true)
    by (vm_compute; reflexivity).
  rewrite forallb_forall in F. specialize (F _ H). cbn [snd] in F.
  destruct c as [|a s]; [discriminate|eauto].
Qed.

Lemma table_codes_have_alpha2 name c :
  In (name, c) COUNTRY_CODE_MAP -> exists a, get ALPHA3_TO_ALPHA2 c = Some a.
Proof.
  intros H.
  assert (F : forallb (fun kv => mem ALPHA3_TO_ALPHA2 (snd kv)) COUNTRY_CODE_MAP
              = true) by (vm_compute; reflexivity).
  rewrite forallb_forall in F. specialize (F _ H). unfold mem in F. cbn [snd] in F.
  destruct (get ALPHA3_TO_ALPHA2 c) as [a|]; [eauto|discriminate].
Qed.

Lemma resolve_exact n c :
  get COUNTRY_CODE_MAP n = Some c -> resolve n = (c, []).
Proof.
  intros H. destruct (table_codes_nonempty n c (get_In _ _ _ H)) as (a & s & ->).
  unfold resolve. rewrite H. reflexivity.
Qed.

Lemma resolve_partial n name c :
  get COUNTRY_CODE_MAP n = None ->
  find (partial_test n) COUNTRY_CODE_MAP = Some (name, c) ->
  resolve n = (c, []).
Proof.
  intros Hget Hfind.
  destruct (table_codes_nonempty name c) as (a & s & ->).
  { apply find_some in Hfind. exact (proj1 Hfind). }
  unfold resolve, partial_match. rewrite Hget, Hfind. reflexivity.
Qed.

Lemma matched_false_unmatched n : matched n = false <-> unmatched n.
Proof.
  unfold matched, unmatched, mem. split.
  - intros H. apply orb_false_elim in H. destruct H as [Hm He].
    destruct (get COUNTRY_CODE_MAP n); [discriminate|]. split; auto.
    destruct (find (partial_test n) COUNTRY_CODE_MAP) as [kv|] eqn:F; auto.
    apply find_some in F. destruct F as [Hin Ht].
    assert (X : existsb (partial_test n) COUNTRY_CODE_MAP = true)
      by (apply existsb_exists; eauto).
    congruence.
  - intros [Hget Hfind]. apply orb_false_intro.
    + rewrite Hget. reflexivity.
    + destruct (existsb (partial_test n) COUNTRY_CODE_MAP) eqn:E;
        [|reflexivity].
      apply existsb_exists in E. destruct E as (kv & Hin & Ht).
      rewrite (find_none _ _ Hfind kv Hin) in Ht. discriminate Ht.
Qed.

(** X1: a label that is a key of the dictionary resolves to the code the
    dictionary gives it, without a warning; the partial-match scan has no
    say. *)
Theorem exact_match_wins (country_name c : str) :
  get COUNTRY_CODE_MAP country_name = Some c ->
  resolve country_name = (c, []).
Proof. apply resolve_exact. Qed.

Lemma resolve_by_cases (country_name : str) :
  if matched country_name
  then snd (resolve country_name) = []
       /\ exists name,
            In (name, resolve_code country_name) COUNTRY_CODE_MAP
            /\ (name = country_name
                \/ partial_test country_name (name, resolve_code country_name)
                   = true)
  else resolve country_name
       = (upper (take 3 country_name), [warning country_name]).
Proof.
  destruct (matched country_name) eqn:M.
  - unfold resolve_code.
    destruct (get COUNTRY_CODE_MAP country_name) as [c|] eqn:G.
    + rewrite (resolve_exact _ _ G). split; auto.
      exists country_name. split; auto. now apply get_In.
    + destruct (find (partial_test country_name) COUNTRY_CODE_MAP)
        as [[name c]|] eqn:F.
      * rewrite (resolve_partial _ _ _ G F). split; auto.
        apply find_some in F. destruct F as [Hin Ht]. exists name. auto.
      * assert (U : unmatched country_name) by (split; assumption).
        apply matched_false_unmatched in U. congruence.
  - apply resolve_unmatched. now apply matched_false_unmatched.
Qed.


Lemma add_alpha2_on_table_code fields c a :
  get fields "code" = Some (JStr c) ->
  get ALPHA3_TO_ALPHA2 c = Some a ->
  add_alpha2 (JDict fields) = Some (JDict (set fields "alpha2" (JStr a))).
Proof. intros H1 H2. unfold add_alpha2. now rewrite H1, H2. Qed.

(** X3: every code the dictionary can give has an entry in the alpha-2
    table, so a country whose label the dictionary matches gets its
    "alpha2" key from the post-process; only a pseudo-code can go
    without. *)
Theorem matched_country_gets_alpha2 (country_name : str) (e : Country) :
  matched country_name = true ->
  code e = resolve_code country_name ->
  exists alpha2 country',
    get ALPHA3_TO_ALPHA2 (code e) = Some alpha2
    /\ add_alpha2 (country_json e) = Some country'
    /\ field country' "alpha2" = Some (JStr alpha2)
    /\ field country' "medals" = field (country_json e) "medals".
Proof.
  intros M Hc. pose proof (resolve_by_cases country_name) as R.
  rewrite M in R. destruct R as (_ & name & Hin & _).
  destruct (table_codes_have_alpha2 _ _ Hin) as [a Ha]. rewrite <- Hc in Ha.
  exists a. eexists. split; [exact Ha|]. split.
  - apply add_alpha2_on_table_code with (c := code e); [reflexivity|exact Ha].
  - split.
    + apply get_set_same.
    + unfold field at 1. apply get_set_other. discriminate.
Qed.

(** ** The normalizer: keys, size and printed lines *)

Section DictShape.
Context {V : Type}.
Implicit Types (d : dict V) (k : str) (v : V).

Lemma keys_set d k v :
  keys (set d k v) = if mem d k then keys d else keys d ++ [k].
Proof.
  unfold mem, keys. induction d as [|[k0 v0] d IH]; simpl; auto.
  destruct (PyStr.eqb k k0) eqn:E; simpl; auto.
  rewrite IH. now destruct (get d k).
Qed.

Lemma mem_false_not_In d k : mem d k = false -> ~ In k (keys d).
Proof.
  unfold mem. intros H Hin. apply In_keys_get in Hin. destruct Hin as [v Hv].
  now rewrite Hv in H.
Qed.

Lemma set_NoDup d k v : NoDup (keys d) -> NoDup (keys (set d k v)).
Proof.
  intros H. rewrite keys_set. destruct (mem d k) eqn:M; auto.
  apply NoDup_app; auto.
  - repeat constructor. intros [].
  - intros x Hx [<-|[]]. exact (mem_false_not_In _ _ M Hx).
Qed.

Lemma set_length d k v : (List.length (set d k v) <= S (List.length d))%nat.
Proof.
  induction d as [|[k0 v0] d IH]; simpl; auto.
  destruct (PyStr.eqb k k0); simpl; lia.
Qed.

End DictShape.

Lemma normalize_step_shape st item :
  NoDup (keys (fst st)) ->
  NoDup (keys (fst (normalize_step st item)))
  /\ (List.length (fst (normalize_step st item)) <= S (List.length (fst st)))%nat
  /\ snd (normalize_step st item) = snd st ++ snd (resolve (fst item)).
Proof.
  destruct st as [normalized printed], item as [n m]. simpl fst. simpl snd.
  intros H. unfold normalize_step.
  destruct (resolve n) as [c lines]. simpl snd.
  destruct (get normalized c) as [existing|].
  - destruct (length (info_name existing) <=? length n)%nat; simpl.
    + repeat split; auto.
    + repeat split; auto using set_NoDup, set_length.
  - simpl. repeat split; auto using set_NoDup, set_length.
Qed.

Lemma normalize_run_shape data :
  NoDup (keys (fst (normalize_run data)))
  /\ (List.length (fst (normalize_run data)) <= List.length data)%nat
  /\ snd (normalize_run data)
     = flat_map (fun item => snd (resolve (fst item))) data.
Proof.
  unfold normalize_run.
  assert (G : forall l st,
             NoDup (keys (fst st)) ->
             NoDup (keys (fst (fold_left normalize_step l st)))
             /\ (List.length (fst (fold_left normalize_step l st))
                 <= List.length (fst st) + List.length l)%nat
             /\ snd (fold_left normalize_step l st)
                = snd st ++ flat_map (fun item => snd (resolve (fst item))) l).
  { induction l as [|item l IH]; intros st H; simpl fold_left.
    - simpl. rewrite app_nil_r. repeat split; auto. lia.
    - destruct (normalize_step_shape st item H) as (H1 & H2 & H3).
      destruct (IH _ H1) as (I1 & I2 & I3).
      repeat split; auto.
      + simpl List.length. lia.
      + rewrite I3, H3. simpl flat_map. now rewrite app_assoc. }
  apply (G data ([], [])). constructor.
Qed.


(** X4: the keys of the normalizer's result are the codes of the input
    labels, all of them and no other: a record may lose the tie-break, its
    code is never lost. *)
Theorem normalized_keys_are_codes (data : dict MedalTally) (k : str) :
  In k (keys (normalize_country_names data))
  <-> exists n m, In (n, m) data /\ resolve_code n = k.
Proof.
  split.
  - intros H. apply In_keys_get in H. destruct H as [e He].
    apply normalize_entry_from_input in He. destruct He as [Hin Hc]. eauto.
  - intros (n & m & Hin & Hc). apply In_keys_get.
    destruct (get (normalize_country_names data) k) as [e|] eqn:G; eauto.
    exfalso. rewrite normalize_get in G.
    pose proof (pick_first_shortest k data) as P. rewrite G in P.
    exact (P _ Hin Hc).
Qed.

(** X5: the normalizer's result has pairwise distinct keys and no more
    entries than the input has records. *)
Theorem normalized_keys_distinct (data : dict MedalTally) :
  NoDup (keys (normalize_country_names data))
  /\ (List.length (normalize_country_names data) <= List.length data)%nat.
Proof.
  destruct (normalize_run_shape data) as (H1 & H2 & _). split; assumption.
Qed.


(** ** The parsers: skipped rows, keys, repeated names *)

Section ParserRows.
Variable int : str -> option Z.

Lemma read_tally_none cells i :
  int_cell int cells i = None \/ int_cell int cells (i + 1) = None
  \/ int_cell int cells (i + 2) = None ->
  read_tally int cells i = None.
Proof.
  unfold read_tally. intros [H|[H|H]]; rewrite H; auto.
  - now destruct (int_cell int cells i).
  - destruct (int_cell int cells i); auto.
    now destruct (int_cell int cells (i + 1)).
Qed.

(** the body of the IMO loop skips the row or stores a tally it read
    under a name of more than two characters *)
Lemma imo_row_cases data cells :
  imo_row int data cells = data
  \/ exists n t,
       (2 < length n)%nat /\ read_tally int cells 2 = Some t
       /\ imo_row int data cells = set data n t.
Proof.
  unfold imo_row.
  destruct (List.length cells <? 6)%nat; auto.
  destruct (nth_error cells 1) as [cc|]; auto.
  match goal with
  | |- context [(length ?x <=? 2)%nat] =>
      destruct (Nat.leb_spec (length x) 2) as [L|L]; auto
  end.
  destruct (historical_in (cell_text cc)) as [h|] eqn:Hh.
  - rewrite (historical_in_member _ _ Hh). left. reflexivity.
  - cbn [andb]. destruct (read_tally int cells 2) as [t|]; auto.
    right. eauto.
Qed.

(** the body of the IOI and IPhO loops skips the row or stores the tally
    it read under the name of the row, which is no historical name *)
Lemma plain_row_cases col data cells :
  plain_row int col data cells = data
  \/ exists t,
       (6 <= List.length cells)%nat
       /\ in_historical (first_link_name (country_cell cells)) = false
       /\ read_tally int cells col = Some t
       /\ plain_row int col data cells
          = set data (first_link_name (country_cell cells)) t.
Proof.
  unfold plain_row.
  destruct (Nat.ltb_spec (List.length cells) 6) as [L|L]; auto.
  destruct (nth_error cells 1) as [cc|] eqn:E; auto.
  rewrite (country_cell_nth_error _ _ E).
  destruct (in_historical (first_link_name cc)) eqn:Hh; auto.
  destruct (read_tally int cells col) as [t|]; auto.
  right. exists t. auto.
Qed.

Lemma imo_row_unreadable data cells :
  read_tally int cells 2 = None -> imo_row int data cells = data.
Proof.
  intros H. destruct (imo_row_cases data cells) as [E|(n & t & _ & R & _)]; auto.
  congruence.
Qed.

Lemma plain_row_unreadable col data cells :
  read_tally int cells col = None -> plain_row int col data cells = data.
Proof.
  intros H.
  destruct (plain_row_cases col data cells) as [E|(t & _ & _ & R & _)]; auto.
  congruence.
Qed.

Lemma short_row_skipped data cells :
  (List.length cells < 6)%nat ->
  imo_row int data cells = data
  /\ forall col, plain_row int col data cells = data.
Proof.
  intros H. apply Nat.ltb_lt in H. unfold imo_row, plain_row.
  rewrite H. auto.
Qed.

(** X7: a row with fewer than six cells is discarded by every parser, and
    so is a row one of whose three medal cells is missing or is no
    integer: columns 2 to 4 for IMO, 3 to 5 for IOI, 4 to 6 for IPhO. *)
Theorem malformed_rows_discarded (cells : Row) :
  ((List.length cells < 6)%nat ->
   discards_row (parse_imo_data int) cells
   /\ discards_row (parse_ioi_data int) cells
   /\ discards_row (parse_ipho_data int) cells)
  /\ (int_cell int cells 2 = None \/ int_cell int cells 3 = None
      \/ int_cell int cells 4 = None ->
      discards_row (parse_imo_data int) cells)
  /\ (int_cell int cells 3 = None \/ int_cell int cells 4 = None
      \/ int_cell int cells 5 = None ->
      discards_row (parse_ioi_data int) cells)
  /\ (int_cell int cells 4 = None \/ int_cell int cells 5 = None
      \/ int_cell int cells 6 = None ->
      discards_row (parse_ipho_data int) cells).
Proof.
  split; [|split; [|split]].
  - intros H. repeat split; apply skipped_row_discarded; intros data;
      apply (short_row_skipped data cells H).
  - intros H. apply skipped_row_discarded. intros data.
    apply imo_row_unreadable, read_tally_none. exact H.
  - intros H. apply skipped_row_discarded. intros data.
    apply plain_row_unreadable, read_tally_none. exact H.
  - intros H. apply skipped_row_discarded. intros data.
    apply plain_row_unreadable, read_tally_none. exact H.
Qed.

(** X8: the IPhO parser reads the bronze count from the seventh cell, so
    it discards every row of six cells or fewer, although its length
    guard lets a row of six cells pass. *)
Theorem ipho_needs_seven_cells (cells : Row) :
  (List.length cells <= 6)%nat ->
  discards_row (parse_ipho_data int) cells.
Proof.
  intros H. apply skipped_row_discarded. intros data.
  apply plain_row_unreadable, read_tally_none. right. right.
  unfold int_cell. simpl Nat.add.
  now rewrite (proj2 (nth_error_None cells 6) H).
Qed.

Lemma In_keys_set {V} (d : dict V) k v x :
  In x (keys (set d k v)) -> x = k \/ In x (keys d).
Proof.
  rewrite keys_set. destruct (mem d k); auto.
  intros H. apply in_app_or in H. destruct H as [H|[<-|[]]]; auto.
Qed.

Lemma parse_with_keys (P : str -> Prop) row_body table :
  (forall data cells,
     row_body data cells = data
     \/ exists n t, P n /\ row_body data cells = set data n t) ->
  NoDup (keys (parse_with row_body table))
  /\ forall n, In n (keys (parse_with row_body table)) -> P n.
Proof.
  intros Hstep. unfold parse_with. destruct table as [rows|].
  - assert (G : forall l data,
               (NoDup (keys data) /\ forall n, In n (keys data) -> P n) ->
               NoDup (keys (fold_left row_body l data))
               /\ forall n, In n (keys (fold_left row_body l data)) -> P n).
    { induction l as [|r l IH]; intros data Hd; simpl; auto.
      apply IH. destruct Hd as [Hnd HP].
      destruct (Hstep data r) as [->|(n & t & Hn & ->)]; auto.
      split; [now apply set_NoDup|].
      intros x Hx. apply In_keys_set in Hx. destruct Hx as [->|Hx]; auto. }
    apply G. split; [constructor | intros n []].
  - split; [constructor | intros n []].
Qed.

(** X9: the keys of a parser's result are pairwise distinct; a key of the
    IMO result has more than two characters, and no key of the IOI or
    IPhO result is a member of the historical set. *)
Theorem parser_keys (table : option (list Row)) :
  (NoDup (keys (parse_imo_data int table))
   /\ forall n, In n (keys (parse_imo_data int table)) -> (2 < length n)%nat)
  /\ (NoDup (keys (parse_ioi_data int table))
      /\ forall n, In n (keys (parse_ioi_data int table)) ->
           in_historical n = false)
  /\ (NoDup (keys (parse_ipho_data int table))
      /\ forall n, In n (keys (parse_ipho_data int table)) ->
           in_historical n = false).
Proof.
  split; [|split].
  - apply (parse_with_keys (fun n => (2 < length n)%nat)). intros data cells.
    destruct (imo_row_cases data cells) as [E|(n & t & Hn & _ & E)]; eauto.
  - apply (parse_with_keys (fun n => in_historical n = false)).
    intros data cells. unfold ioi_row.
    destruct (plain_row_cases 3 data cells) as [E|(t & _ & Hn & _ & E)]; eauto.
  - apply (parse_with_keys (fun n => in_historical n = false)).
    intros data cells. unfold ipho_row.
    destruct (plain_row_cases 4 data cells) as [E|(t & _ & Hn & _ & E)]; eauto.
Qed.

Lemma plain_row_get_other col data cells n :
  first_link_name (country_cell cells) <> n ->
  get (plain_row int col data cells) n = get data n.
Proof.
  intros H.
  destruct (plain_row_cases col data cells) as [->|(t & _ & _ & _ & ->)]; auto.
  now apply get_set_other.
Qed.

Lemma plain_row_accepts col data cells t :
  (6 <= List.length cells)%nat ->
  in_historical (first_link_name (country_cell cells)) = false ->
  read_tally int cells col = Some t ->
  plain_row int col data cells
  = set data (first_link_name (country_cell cells)) t.
Proof.
  intros Hlen Hh Hr. unfold plain_row.
  rewrite (proj2 (Nat.ltb_ge _ _) Hlen).
  destruct (nth_error cells 1) as [cc|] eqn:E.
  - rewrite (country_cell_nth_error _ _ E) in *. now rewrite Hh, Hr.
  - apply nth_error_None in E. lia.
Qed.

Lemma plain_fold_keeps col after d n t :
  get d n = Some t ->
  (forall r, In r after -> first_link_name (country_cell r) <> n) ->
  get (fold_left (plain_row int col) after d) n = Some t.
Proof.
  revert d. induction after as [|r after IH]; intros d Hd Hafter; auto.
  cbn [fold_left]. apply IH.
  - rewrite plain_row_get_other; auto. apply Hafter. now left.
  - intros r' Hr'. apply Hafter. now right.
Qed.

Lemma plain_rows_last_wins col header before cells after t :
  (6 <= List.length cells)%nat ->
  in_historical (first_link_name (country_cell cells)) = false ->
  read_tally int cells col = Some t ->
  (forall r, In r after ->
     first_link_name (country_cell r) <> first_link_name (country_cell cells)) ->
  get (parse_with (plain_row int col)
         (Some (header :: before ++ cells :: after)))
      (first_link_name (country_cell cells))
  = Some t.
Proof.
  intros Hlen Hh Hr Hafter. unfold parse_with. cbn [tl].
  rewrite fold_left_app. cbn [fold_left].
  apply plain_fold_keeps; auto.
  rewrite plain_row_accepts with (t := t) by assumption.
  apply get_set_same.
Qed.

(** X10: in the IOI and IPhO parsers a row that is read (six cells or
    more, a name outside the historical set, three integer medal cells)
    fixes the tally of its name when no later row carries that name,
    whatever earlier rows stored under it: of several rows with one name
    the last one read wins. *)
Theorem repeated_name_last_row_wins
    (header : Row) (before after : list Row) (cells : Row) :
  (6 <= List.length cells)%nat ->
  in_historical (first_link_name (country_cell cells)) = false ->
  (forall r, In r after ->
     first_link_name (country_cell r) <> first_link_name (country_cell cells)) ->
  (forall t, read_tally int cells 3 = Some t ->
     get (parse_ioi_data int (Some (header :: before ++ cells :: after)))
         (first_link_name (country_cell cells)) = Some t)
  /\ (forall t, read_tally int cells 4 = Some t ->
        get (parse_ipho_data int (Some (header :: before ++ cells :: after)))
            (first_link_name (country_cell cells)) = Some t).
Proof.
  intros Hlen Hh Hafter. split; intros t Hr;
    now apply plain_rows_last_wins.
Qed.

End ParserRows.

(** ** The aggregator: order of ties, size, names, provenance, totals *)

Lemma insert_desc_filter t x l :
  filter (fun e => (sort_key e =? t)%Z) (insert_desc x l)
  = filter (fun e => (sort_key e =? t)%Z) (x :: l).
Proof.
  induction l as [|y l IH]; auto.
  cbn [insert_desc].
  destruct (Z.leb_spec (sort_key y) (sort_key x)) as [L|L]; auto.
  cbn [filter] in *. rewrite IH.
  destruct (Z.eqb_spec (sort_key x) t) as [Ex|Ex];
    destruct (Z.eqb_spec (sort_key y) t) as [Ey|Ey]; auto.
  lia.
Qed.

Lemma sort_desc_filter t l :
  filter (fun e => (sort_key e =? t)%Z) (sort_desc l)
  = filter (fun e => (sort_key e =? t)%Z) l.
Proof.
  induction l as [|x l IH]; auto.
  cbn [sort_desc fold_right]. fold (sort_desc l).
  rewrite insert_desc_filter. cbn [filter]. now rewrite IH.
Qed.

(** X11: the sort is stable: the entries of the output with one and the
    same combined total stand in the order in which the loop over the
    code set built them. *)
Theorem output_ties_keep_iteration_order
    (iterate : list str -> list str)
    (imo_data ioi_data ipho_data : dict MedalTally) (t : Z) :
  filter (fun e => (total (combined (medals e)) =? t)%Z)
         (aggregate_data iterate imo_data ioi_data ipho_data)
  = filter (fun e => (total (combined (medals e)) =? t)%Z)
      (map (country_of (normalize_country_names imo_data)
              (normalize_country_names ioi_data)
              (normalize_country_names ipho_data))
           (all_codes iterate (normalize_country_names imo_data)
              (normalize_country_names ioi_data)
              (normalize_country_names ipho_data))).
Proof. apply (sort_desc_filter t). Qed.

Lemma keys_length {V} (d : dict V) : List.length (keys d) = List.length d.
Proof. apply length_map. Qed.

Lemma output_length_bound iterate imo_data ioi_data ipho_data :
  set_iteration iterate ->
  (List.length (aggregate_data iterate imo_data ioi_data ipho_data)
   <= List.length imo_data + List.length ioi_data + List.length ipho_data)%nat.
Proof.
  intros Hset.
  rewrite (Permutation_length (output_perm iterate imo_data ioi_data ipho_data)).
  rewrite length_map. unfold all_codes.
  destruct (Hset (keys (normalize_country_names imo_data)
                  ++ keys (normalize_country_names ioi_data)
                  ++ keys (normalize_country_names ipho_data))) as [Hnd Hin].
  etransitivity.
  - apply NoDup_incl_length; [exact Hnd|].
    intros x Hx. exact (proj1 (Hin x) Hx).
  - rewrite !length_app, !keys_length.
    pose proof (proj1 (proj2 (normalize_run_shape imo_data))).
    pose proof (proj1 (proj2 (normalize_run_shape ioi_data))).
    pose proof (proj1 (proj2 (normalize_run_shape ipho_data))).
    unfold normalize_country_names. lia.
Qed.

(** X12: the output has at most as many entries as the three inputs
    have records together; with three empty inputs it is the empty
    list. *)
Theorem output_size (iterate : list str -> list str)
    (imo_data ioi_data ipho_data : dict MedalTally) :
  set_iteration iterate ->
  (List.length (aggregate_data iterate imo_data ioi_data ipho_data)
   <= List.length imo_data + List.length ioi_data + List.length ipho_data)%nat
  /\ aggregate_data iterate [] [] [] = [].
Proof.
  intros Hset. split; [now apply output_length_bound|].
  pose proof (output_length_bound iterate [] [] [] Hset) as H.
  destruct (aggregate_data iterate [] [] []); [reflexivity|].
  simpl in H. lia.
Qed.

(** X13: the display name of an output entry is the IMO name of its code
    when that is a non-empty stringing, else the IOI name when that is a
    non-empty stringing, else whatever the IPhO dictionary has: its name,
    be it empty, or no name at all. *)
Theorem output_name_priority (iterate : list str -> list str)
    (imo_data ioi_data ipho_data : dict MedalTally) (e : Country) :
  In e (aggregate_data iterate imo_data ioi_data ipho_data) ->
  let imo_name := get_name (get (normalize_country_names imo_data) (code e)) in
  let ioi_name := get_name (get (normalize_country_names ioi_data) (code e)) in
  let ipho_name := get_name (get (normalize_country_names ipho_data) (code e)) in
  (truthy imo_name = true -> name e = imo_name)
  /\ (truthy imo_name = false -> truthy ioi_name = true -> name e = ioi_name)
  /\ (truthy imo_name = false -> truthy ioi_name = false -> name e = ipho_name).
Proof.
  intros H. destruct (output_entry _ _ _ _ _ H) as (k & _ & ->).
  cbn [code name country_of]. unfold py_or.
  repeat split.
  - intros H1. now rewrite H1, H1.
  - intros H1 H2. now rewrite H1, H2.
  - intros H1 H2. now rewrite H1, H2.
Qed.

Lemma source_tally_provenance data k :
  (get (normalize_country_names data) k = None
   /\ get_medals (get (normalize_country_names data) k) = zero_tally)
  \/ exists n,
       In (n, get_medals (get (normalize_country_names data) k)) data
       /\ resolve_code n = k.
Proof.
  destruct (get (normalize_country_names data) k) as [i|] eqn:G.
  - right. apply normalize_entry_from_input in G. destruct G as [Hin Hc].
    exists (info_name i). auto.
  - left. auto.
Qed.

(** X14: each per-source tally of an output entry is the tally of one
    record of that source whose label resolves to the entry's code, or the
    zero tally when the source has no such label; tallies of several
    records are never added up within a source. *)
Theorem output_tally_provenance (iterate : list str -> list str)
    (imo_data ioi_data ipho_data : dict MedalTally) (e : Country) :
  In e (aggregate_data iterate imo_data ioi_data ipho_data) ->
  let from (data : dict MedalTally) (t : MedalTally) :=
    (get (normalize_country_names data) (code e) = None /\ t = zero_tally)
    \/ exists n, In (n, t) data /\ resolve_code n = code e in
  from imo_data (IMO (medals e))
  /\ from ioi_data (IOI (medals e))
  /\ from ipho_data (IPhO (medals e)).
Proof.
  intros H. destruct (output_entry _ _ _ _ _ H) as (k & _ & ->).
  cbn [code medals IMO IOI IPhO country_of].
  repeat split; apply source_tally_provenance.
Qed.

Lemma Zsum_app l1 l2 : Zsum (l1 ++ l2) = (Zsum l1 + Zsum l2)%Z.
Proof. induction l1 as [|x l1 IH]; simpl; lia. Qed.

Lemma Zsum_perm l1 l2 : Permutation l1 l2 -> Zsum l1 = Zsum l2.
Proof. induction 1; simpl; lia. Qed.

Lemma Zsum_map_add {A} (f g : A -> Z) l :
  Zsum (map (fun x => (f x + g x)%Z) l) = (Zsum (map f l) + Zsum (map g l))%Z.
Proof. induction l as [|x l IH]; simpl; lia. Qed.

(** summing a field over a duplicate-free list of codes that covers the
    keys of a dictionary gives the sum of the field over the dictionary *)
Lemma Zsum_over_codes (f : MedalTally -> Z) (d : dict Info) :
  f zero_tally = 0%Z ->
  NoDup (keys d) ->
  forall codes,
    NoDup codes -> incl (keys d) codes ->
    Zsum (map (fun k => f (get_medals (get d k))) codes)
    = Zsum (map (fun kv => f (info_medals (snd kv))) d).
Proof.
  intros Hz. induction d as [|[k0 v0] d IH]; intros Hnd codes Hc Hincl.
  - clear Hnd Hc Hincl. unfold Zsum.
    induction codes as [|k codes IHc]; [reflexivity|].
    cbn [map fold_right get get_medals] in *. rewrite IHc, Hz. reflexivity.
  - assert (Hk0 : In k0 codes) by (apply Hincl; now left).
    apply in_split in Hk0. destruct Hk0 as (l1 & l2 & ->).
    unfold keys in Hnd. simpl in Hnd. inversion Hnd as [|? ? Hnotin Hnd']. subst.
    pose proof (NoDup_remove_1 _ _ _ Hc) as Hc'.
    pose proof (NoDup_remove_2 _ _ _ Hc) as Hk0.
    assert (Hincl' : incl (keys d) (l1 ++ l2)).
    { intros x Hx. assert (Hx' : In x (l1 ++ k0 :: l2)) by (apply Hincl; now right).
      apply in_app_or in Hx'. apply in_or_app.
      destruct Hx' as [Hx'|[<-|Hx']]; auto. contradiction. }
    specialize (IH Hnd' _ Hc' Hincl').
    assert (Hext : forall l, ~ In k0 l ->
              map (fun k => f (get_medals (get ((k0, v0) :: d) k))) l
              = map (fun k => f (get_medals (get d k))) l).
    { intros l Hl. apply map_ext_in. intros k Hk. simpl.
      destruct (str_eqb_spec k k0) as [->|_]; [contradiction|reflexivity]. }
    rewrite map_app, Zsum_app. cbn [map Zsum fold_right].
    rewrite (Hext l1), (Hext l2)
      by (intros Hx; apply Hk0, in_or_app; auto).
    cbn [get]. rewrite str_eqb_refl. cbn [get_medals snd].
    rewrite map_app, Zsum_app in IH. unfold Zsum in *. lia.
Qed.

Lemma output_field_sum (f : MedalTally -> Z)
    iterate imo_data ioi_data ipho_data :
  set_iteration iterate ->
  f zero_tally = 0%Z ->
  (forall m, combined_ok m ->
     f (combined m) = (f (IMO m) + f (IOI m) + f (IPhO m))%Z) ->
  Zsum (map (fun e => f (combined (medals e)))
            (aggregate_data iterate imo_data ioi_data ipho_data))
  = (Zsum (map (fun kv => f (info_medals (snd kv)))
               (normalize_country_names imo_data))
     + Zsum (map (fun kv => f (info_medals (snd kv)))
                 (normalize_country_names ioi_data))
     + Zsum (map (fun kv => f (info_medals (snd kv)))
                 (normalize_country_names ipho_data)))%Z.
Proof.
  intros Hset Hz Hf.
  rewrite (Zsum_perm _ _
             (Permutation_map _ (output_perm iterate imo_data ioi_data ipho_data))).
  rewrite map_map.
  set (a := normalize_country_names imo_data).
  set (b := normalize_country_names ioi_data).
  set (c := normalize_country_names ipho_data).
  set (codes := all_codes iterate a b c).
  rewrite (map_ext _ (fun k => (f (get_medals (get a k))
                                + f (get_medals (get b k))
                                + f (get_medals (get c k)))%Z))
    by (intros k; apply (Hf _ (country_of_combined a b c k))).
  rewrite (Zsum_map_add (fun k => (f (get_medals (get a k))
                                   + f (get_medals (get b k)))%Z)).
  rewrite (Zsum_map_add (fun k => f (get_medals (get a k)))).
  assert (Hnd : NoDup codes) by apply Hset.
  assert (Hin : forall x, In x codes <-> In x (keys a ++ keys b ++ keys c))
    by apply Hset.
  assert (Ia : incl (keys a) codes).
  { intros x Hx. apply Hin. apply in_or_app. now left. }
  assert (Ib : incl (keys b) codes).
  { intros x Hx. apply Hin. apply in_or_app. right. apply in_or_app. now left. }
  assert (Ic : incl (keys c) codes).
  { intros x Hx. apply Hin. apply in_or_app. right. apply in_or_app. now right. }
  rewrite (Zsum_over_codes f a Hz
             (proj1 (normalize_run_shape imo_data)) codes Hnd Ia).
  rewrite (Zsum_over_codes f b Hz
             (proj1 (normalize_run_shape ioi_data)) codes Hnd Ib).
  rewrite (Zsum_over_codes f c Hz
             (proj1 (normalize_run_shape ipho_data)) codes Hnd Ic).
  reflexivity.
Qed.

(** X15: nothing is counted twice and nothing is lost between the
    normalizer and the output: summed over the output, the combined
    gold, silver, bronze and total each equal the sum of that field over
    the entries of the three normalized dictionaries. *)
Theorem output_conserves_medals (iterate : list str -> list str)
    (imo_data ioi_data ipho_data : dict MedalTally) :
  set_iteration iterate ->
  let output := aggregate_data iterate imo_data ioi_data ipho_data in
  let kept (f : MedalTally -> Z) (data : dict MedalTally) :=
    Zsum (map (fun kv => f (info_medals (snd kv)))
              (normalize_country_names data)) in
  let conserved (f : MedalTally -> Z) :=
    Zsum (map (fun e => f (combined (medals e))) output)
    = (kept f imo_data + kept f ioi_data + kept f ipho_data)%Z in
  conserved gold /\ conserved silver /\ conserved bronze /\ conserved total.
Proof.
  intros Hset. cbv zeta.
  repeat split; apply output_field_sum; auto;
    intros m (Hg & Hs & Hb & Ht); assumption.
Qed.

(** ** The alpha-2 post-process: when it raises *)




(** ** The IMO parser: the name taken from the links *)

Lemma last_cons {A} (x : A) l d : last (x :: l) d = last l x.
Proof.
  revert x d. induction l as [|y l IH]; intros x d; auto.
  change (last (x :: y :: l) d) with (last (y :: l) d).
  now rewrite (IH y d), (IH y x).
Qed.

Lemma imo_link_fold links acc :
  fold_left
    (fun country_name link =>
       if nonempty (link_text link) && (1 <? length (link_text link))%nat
          && (PyStr.eqb (link_text link) (link_title link)
              || negb (nonempty (link_title link)))
       then link_text link else country_name)
    links acc
  = last (map link_text (filter link_qualifies links)) acc.
Proof.
  revert acc. induction links as [|l links IH]; intros acc; auto.
  cbn [fold_left filter]. rewrite IH. unfold link_qualifies at 2.
  destruct (nonempty (link_text l) && (1 <? length (link_text l))%nat
            && (PyStr.eqb (link_text l) (link_title l)
                || negb (nonempty (link_title l)))); auto.
  cbn [map]. now rewrite last_cons.
Qed.

(** X17: in the IMO parser the name of a country cell with links is the
    text of the last link that has more than one character and a title
    that is empty or equal to its text; when the cell has links and none
    of them qualifies, the parser discards the row. *)
Theorem imo_name_from_links (int : str -> option Z) :
  (forall links,
     imo_link_name links = last (map link_text (filter link_qualifies links)) "")
  /\ (forall cells,
        cell_links (country_cell cells) <> [] ->
        filter link_qualifies (cell_links (country_cell cells)) = [] ->
        discards_row (parse_imo_data int) cells).
Proof.
  split.
  - intros links. apply imo_link_fold.
  - intros cells Hlinks Hnone. apply skipped_row_discarded. intros data.
    unfold imo_row.
    destruct (List.length cells <? 6)%nat; auto.
    destruct (nth_error cells 1) as [cc|] eqn:E; auto.
    rewrite (country_cell_nth_error _ _ E) in *.
    destruct (cell_links cc) as [|l ls] eqn:L; [congruence|].
    unfold imo_link_name. rewrite imo_link_fold, Hnone. reflexivity.
Qed.

End Facts.

(** * Counterexamples and instances

    The counterexamples hold for every case mapping that obeys
    [PythonCase]: their labels are ASCII. *)


(** C4 as stated fails for the IOI parser: the country cell
    "Soviet Union (USSR)" contains a historical name, yet the row stays,
    its label resolves to the pseudo-code "SOV", and the output has its
    medals under that code. *)
Lemma ioi_keeps_historical_substring :
  every_python_case (fun cm =>
    let cells := text_row [""; "Soviet Union (USSR)"; ""; "1"; "2"; "3"] in
    names_historical (cell_text (country_cell cells)) = true
    /\ parse_ioi_data decimal (Some [[]; cells])
       = [("Soviet Union (USSR)", mkTally 1 2 3 6)]
    /\ ~ discards_row (parse_ioi_data decimal) cells
    /\ aggregate_data last_seen [] (parse_ioi_data decimal (Some [[]; cells])) []
       = [mkCountry "SOV" (Some "Soviet Union (USSR)")
            (mkMedals zero_tally (mkTally 1 2 3 6) zero_tally (mkTally 1 2 3 6))]).
Proof.
  intros cm laws cells.
  assert (P : parse_ioi_data decimal (Some [[]; cells])
              = [("Soviet Union (USSR)", mkTally 1 2 3 6)])
    by (vm_compute; reflexivity).
  split; [|split; [exact P|split]].
  - rewrite names_historical_ref by reflexivity. vm_compute. reflexivity.
  - intros H. specialize (H [] [] []). vm_compute in H. discriminate H.
  - rewrite P. rewrite aggregate_data_ref by reflexivity.
    vm_compute. reflexivity.
Qed.

(** the reference case mapping obeys the laws; the instances below are
    run with it *)
#[local] Instance ref_laws : PythonCase ref_case.
Proof.
  split.
  - reflexivity.
  - reflexivity.
  - intros [|c s]; [discriminate | reflexivity].
Qed.

#[local] Existing Instance ref_case.



Lemma normalize_collision_witness :
  get (normalize_country_names
         [("France", mkTally 9 9 9 27); ("Peruéé", mkTally 1 2 3 6);
          ("China", mkTally 0 0 1 1); ("Peru XY", mkTally 4 5 6 15)])
      "PER"
  = Some (mkInfo "Peruéé" (mkTally 1 2 3 6)).
Proof.
  apply (proj2 normalize_collision [("France", mkTally 9 9 9 27)]
           [("China", mkTally 0 0 1 1)] []
           "Peruéé" "Peru XY" (mkTally 1 2 3 6) (mkTally 4 5 6 15) "PER").
  - vm_compute; reflexivity.
  - vm_compute; reflexivity.
  - intros item [<-|[<-|[]]]; vm_compute; discriminate.
Defined.

Lemma empty_label_resolves_to_first_entry_witness :
  get (normalize_country_names
         [("United States", mkTally 5 5 5 15); ("", mkTally 1 0 0 1)]) "USA"
  = Some (mkInfo "" (mkTally 1 0 0 1)).
Proof.
  apply (proj2 (proj2 (proj2 (proj2 (proj2
           empty_label_resolves_to_first_entry))))).
  - unfold keys. simpl. constructor.
    + intros [H|[]]. discriminate H.
    + constructor; [intros [] | constructor].
  - right. left. reflexivity.
Defined.

Lemma historical_rows_discarded_witness :
  let cells := text_row [""; "Soviet Union"; ""; "1"; "2"; "3"; "6"] in
  discards_row (parse_imo_data decimal) cells
  /\ discards_row (parse_ioi_data decimal) cells
  /\ discards_row (parse_ipho_data decimal) cells.
Proof.
  intros cells.
  destruct (historical_rows_discarded decimal cells) as [Himo Hplain].
  split.
  - apply Himo. vm_compute. reflexivity.
  - apply Hplain. vm_compute. reflexivity.
Defined.

Lemma sample_output :
  aggregate_data last_seen sample_imo sample_ioi sample_ipho
  = [sample_france; sample_peru].
Proof. vm_compute. reflexivity. Qed.

Lemma combined_and_row_totals_witness :
  In sample_france (aggregate_data last_seen sample_imo sample_ioi sample_ipho)
  /\ combined_ok (medals sample_france).
Proof.
  assert (H : In sample_france
                (aggregate_data last_seen sample_imo sample_ioi sample_ipho)).
  { rewrite sample_output. left. reflexivity. }
  split; [exact H|].
  exact (proj1 (combined_and_row_totals last_seen decimal) _ _ _ _ H).
Defined.

Lemma output_sorted_descending_witness :
  (total (combined (medals sample_peru))
   <= total (combined (medals sample_france)))%Z.
Proof.
  apply (output_sorted_descending last_seen sample_imo sample_ioi sample_ipho 0);
    rewrite sample_output; reflexivity.
Defined.

Lemma output_codes_unique_and_complete_witness :
  NoDup (map code (aggregate_data last_seen sample_imo sample_ioi sample_ipho)).
Proof.
  exact (proj1 (output_codes_unique_and_complete last_seen
                  sample_imo sample_ioi sample_ipho last_seen_set)).
Defined.

Lemma absent_sources_contribute_zero_witness :
  count_occ PyStr.eq_dec
    (map code (aggregate_data last_seen sample_imo sample_ioi sample_ipho))
    "PER" = 1%nat
  /\ IOI (medals sample_peru) = zero_tally
  /\ IPhO (medals sample_peru) = zero_tally.
Proof.
  destruct (absent_sources_contribute_zero last_seen
              sample_imo sample_ioi sample_ipho last_seen_set)
    as (_ & _ & Hipho & Hk).
  destruct (Hk "PER") as [Hcount Hentry].
  { left. vm_compute. auto. }
  split; [exact Hcount|].
  assert (Hin : In sample_peru
                  (aggregate_data last_seen sample_imo sample_ioi sample_ipho)).
  { rewrite sample_output. right. left. reflexivity. }
  destruct (Hentry sample_peru Hin eq_refl) as (_ & Hioi & _).
  split.
  - apply Hioi. vm_compute. intros [H|[]]. discriminate H.
  - exact (Hipho sample_peru Hin).
Defined.

Lemma alpha2_idempotent_and_conservative_witness :
  exists data',
    add_alpha2_main (document [sample_france; sample_peru] "2025-01-01T00:00:00")
    = Some data'
    /\ add_alpha2_main data' = Some data'
    /\ Forall2 augmented
         (countries_of (document [sample_france; sample_peru] "2025-01-01T00:00:00"))
         (countries_of data').
Proof.
  destruct (proj2 alpha2_idempotent_and_conservative
              [sample_france; sample_peru] "2025-01-01T00:00:00") as [data' H].
  exists data'. split; [exact H|].
  destruct (proj1 alpha2_idempotent_and_conservative _ _ H) as (Hi & _ & Hf).
  split; assumption.
Defined.

Lemma exact_match_wins_witness : resolve "United States" = ("USA", []).
Proof. apply (exact_match_wins "United States" "USA"). vm_compute. reflexivity. Defined.

Lemma matched_country_gets_alpha2_witness :
  exists alpha2 country',
    get ALPHA3_TO_ALPHA2 (code sample_france) = Some alpha2
    /\ add_alpha2 (country_json sample_france) = Some country'
    /\ field country' "alpha2" = Some (JStr alpha2)
    /\ field country' "medals" = field (country_json sample_france) "medals".
Proof.
  apply (matched_country_gets_alpha2 "France" sample_france);
    vm_compute; reflexivity.
Defined.

Lemma malformed_rows_discarded_witness :
  discards_row (parse_ioi_data decimal)
    (text_row [""; "Peru"; ""; "1"; "n/a"; "3"]).
Proof.
  apply (proj1 (proj2 (proj2 (malformed_rows_discarded decimal
           (text_row [""; "Peru"; ""; "1"; "n/a"; "3"]))))).
  right. left. vm_compute. reflexivity.
Defined.

Lemma ipho_needs_seven_cells_witness :
  discards_row (parse_ipho_data decimal)
    (text_row ["PER"; "Peru"; ""; ""; "1"; "2"]).
Proof.
  apply ipho_needs_seven_cells. vm_compute. lia.
Defined.

Lemma parser_keys_witness :
  (2 < length "Peru")%nat.
Proof.
  apply (proj2 (proj1 (parser_keys decimal
           (Some [[]; text_row [""; "Peru"; "1"; "2"; "3"; "6"]])))).
  vm_compute. left. reflexivity.
Defined.

Lemma repeated_name_last_row_wins_witness :
  get (parse_ioi_data decimal
         (Some ([] :: [text_row [""; "Peru"; ""; "1"; "2"; "3"]]
                ++ text_row [""; "Peru"; ""; "4"; "5"; "6"] :: [])))
      "Peru"
  = Some (mkTally 4 5 6 15).
Proof.
  apply (proj1 (repeated_name_last_row_wins decimal []
                  [text_row [""; "Peru"; ""; "1"; "2"; "3"]] []
                  (text_row [""; "Peru"; ""; "4"; "5"; "6"])
                  ltac:(vm_compute; lia) eq_refl ltac:(intros r []))).
  vm_compute. reflexivity.
Defined.

Lemma output_size_witness :
  (List.length (aggregate_data last_seen sample_imo sample_ioi sample_ipho)
   <= List.length sample_imo + List.length sample_ioi + List.length sample_ipho)%nat.
Proof.
  exact (proj1 (output_size last_seen sample_imo sample_ioi sample_ipho
                  last_seen_set)).
Defined.

Lemma output_name_priority_witness : name sample_france = Some "France".
Proof.
  assert (H : In sample_france
                (aggregate_data last_seen sample_imo sample_ioi sample_ipho)).
  { rewrite sample_output. left. reflexivity. }
  apply (proj1 (output_name_priority last_seen _ _ _ _ H)).
  vm_compute. reflexivity.
Defined.

Lemma output_tally_provenance_witness :
  (get (normalize_country_names sample_ioi) (code sample_peru) = None
   /\ IOI (medals sample_peru) = zero_tally)
  \/ exists n, In (n, IOI (medals sample_peru)) sample_ioi
               /\ resolve_code n = code sample_peru.
Proof.
  assert (H : In sample_peru
                (aggregate_data last_seen sample_imo sample_ioi sample_ipho)).
  { rewrite sample_output. right. left. reflexivity. }
  exact (proj1 (proj2 (output_tally_provenance last_seen _ _ _ _ H))).
Defined.

Lemma output_conserves_medals_witness :
  Zsum (map (fun e => total (combined (medals e)))
            (aggregate_data last_seen sample_imo sample_ioi sample_ipho))
  = 22%Z.
Proof.
  rewrite (proj2 (proj2 (proj2 (output_conserves_medals last_seen
             sample_imo sample_ioi sample_ipho last_seen_set)))).
  vm_compute. reflexivity.
Defined.


Lemma imo_name_from_links_witness :
  discards_row (parse_imo_data decimal)
    [text_cell "1";
     mkCell "Peru†" [mkLink "†" ""];
     text_cell "1"; text_cell "2"; text_cell "3"; text_cell "6"].
Proof.
  apply (proj2 (imo_name_from_links decimal)).
  - vm_compute. discriminate.
  - vm_compute. reflexivity.
Defined.
